(** * Garden logger: fullscreen terminal writer and buffered event stream

    A shallow embedding of
    [garden-service/src/logger/writers/fullscreen-terminal-writer.ts]
    (class [FullscreenTerminalWriter]) and of the [BufferedEventStream]
    class that ships events and log entries in batches, together with the
    properties of the two that the design document states.

    Conventions.  A JavaScript object with mutable fields is a record and
    every method is a function from the record to the record (explicit state
    passing).  Calls on the blessed screen and main box and on
    [process.stdout] are appended to a trace carried by the state, so that
    "how many [setLine] calls did this method issue" is a statement about
    the trace.  Arrays are lists, [arr[i]] is stdpp's [arr !! i] ([None] for
    JavaScript's [undefined]); the [spinners] object used as a dictionary is
    a [gmap].  Time is an integer number of milliseconds, as [Date.now()]
    returns it. *)

From Stdlib Require Import ZArith String Ascii Bool Lia.
From stdpp Require Import base option list strings gmap.

(** ** Array.prototype.splice(0, n)

    [arr.splice(0, n)] removes the first [n] elements (all of them when the
    array is shorter) and returns them; the array keeps the rest. *)
Definition splice0 {A : Type} (n : nat) (arr : list A) : list A * list A :=
  (take n arr, drop n arr).

(** * The buffered event stream *)
Module EventStream.

Section Stream.
(** [GardenEvents[GardenEventName]] payloads, [LogEntryMetadata] and the
    [data] of a log entry (of type [any]) are declared in modules that are
    not part of this development; the buffer never inspects them. *)
Context {EventPayload LogEntryMetadata LogEntryData : Type}.

Record StreamEvent : Type := mkStreamEvent {
  name : string;
  payload : EventPayload
}.

Record LogEntryEvent : Type := mkLogEntryEvent {
  key : string;
  parentKey : option string;
  revision : nat;
  msg : string + list string;
  data : option LogEntryData;
  metadata : option LogEntryMetadata;
  section : option string
}.

Definition MAX_BATCH_SIZE : nat := 200.

Record BufferedEventStream : Type := mkStream {
  sessionId : string;
  bufferedEvents : list StreamEvent;
  bufferedLogEntries : list LogEntryEvent
}.

(** The body of a request to the platform, as the object literals of
    [flushBuffered] build it: [{ sessionId, events }] or
    [{ sessionId, logEntries }].  A field that the literal does not mention
    is [None]. *)
Record Batch : Type := mkBatch {
  batchSessionId : string;
  events : option (list StreamEvent);
  logEntries : option (list LogEntryEvent)
}.

(** What the module can do to the outside world with what it imports:
    print a line on the console, or POST a request body to a path of the
    platform ([axios.post]).  The lines that [flushBuffered] prints are an
    empty line, "would post n events" and "would post n log entries". *)
Inductive ConsoleLine : Type :=
  | BlankLine
  | WouldPostEvents (n : nat)
  | WouldPostLogEntries (n : nat).

Inductive Effect : Type :=
  | ConsoleLog (line : ConsoleLine)
  | Post (path : string) (body : Batch).

Definition isPost (e : Effect) : bool :=
  match e with Post _ _ => true | ConsoleLog _ => false end.

Definition newStream (sid : string) : BufferedEventStream :=
  {| sessionId := sid; bufferedEvents := []; bufferedLogEntries := [] |}.

Definition streamEvent (ev : StreamEvent) (s : BufferedEventStream)
  : BufferedEventStream :=
  {| sessionId := sessionId s;
     bufferedEvents := bufferedEvents s ++ [ev];
     bufferedLogEntries := bufferedLogEntries s |}.

Definition streamLogEntry (le : LogEntryEvent) (s : BufferedEventStream)
  : BufferedEventStream :=
  {| sessionId := sessionId s;
     bufferedEvents := bufferedEvents s;
     bufferedLogEntries := bufferedLogEntries s ++ [le] |}.

(** The two local constants of [flushBuffered]. *)
Definition eventsToFlush (flushAll : bool) (s : BufferedEventStream)
  : list StreamEvent :=
  fst (splice0 (if flushAll then length (bufferedEvents s) else MAX_BATCH_SIZE)
               (bufferedEvents s)).

Definition logEntryFlushCount (flushAll : bool) (s : BufferedEventStream) : nat :=
  if flushAll then length (bufferedLogEntries s)
  else MAX_BATCH_SIZE - length (eventsToFlush flushAll s).

Definition logEntriesToFlush (flushAll : bool) (s : BufferedEventStream)
  : list LogEntryEvent :=
  fst (splice0 (logEntryFlushCount flushAll s) (bufferedLogEntries s)).

(** [flushBuffered({ flushAll })].  In the source both calls of
    [axios.post] are commented out: for a non-empty batch the method builds
    the request body, leaves it unused, and prints how many records it
    "would post".  The first component of the result lists the effects of
    the call, in order. *)
Definition flushBuffered (flushAll : bool) (s : BufferedEventStream)
  : list Effect * BufferedEventStream :=
  let '(evs, restEvents) :=
    splice0 (if flushAll then length (bufferedEvents s) else MAX_BATCH_SIZE)
            (bufferedEvents s) in
  let out1 :=
    if (0 <? length evs)%nat
    then [ ConsoleLog BlankLine; ConsoleLog (WouldPostEvents (length evs));
           ConsoleLog BlankLine ]
    else [] in
  let count :=
    if flushAll then length (bufferedLogEntries s)
    else MAX_BATCH_SIZE - length evs in
  let '(les, restLogEntries) := splice0 count (bufferedLogEntries s) in
  let out2 :=
    if (0 <? length les)%nat
    then [ ConsoleLog (WouldPostLogEntries (length les)) ]
    else [] in
  (out1 ++ out2,
   {| sessionId := sessionId s;
      bufferedEvents := restEvents;
      bufferedLogEntries := restLogEntries |}).

Definition flush (flushAll : bool) (s : BufferedEventStream) : BufferedEventStream :=
  snd (flushBuffered flushAll s).

Definition effects (flushAll : bool) (s : BufferedEventStream) : list Effect :=
  fst (flushBuffered flushAll s).

(** Enqueue a whole list of structured events, oldest first. *)
Definition streamEvents (evs : list StreamEvent) (s : BufferedEventStream)
  : BufferedEventStream :=
  fold_left (fun acc ev => streamEvent ev acc) evs s.

(** *** Basic facts *)

Lemma drop_length_take {A : Type} (n : nat) (l : list A) :
  drop (length (take n l)) l = drop n l.
Proof.
  rewrite length_take.
  destruct (decide (n ≤ length l)) as [Hle|Hgt].
  - by rewrite Nat.min_l.
  - rewrite Nat.min_r by lia. rewrite !drop_ge; [done | lia | lia].
Qed.

Lemma flush_bufferedEvents flushAll s :
  bufferedEvents (flush flushAll s)
  = drop (length (eventsToFlush flushAll s)) (bufferedEvents s).
Proof.
  unfold flush, flushBuffered, eventsToFlush, splice0; simpl.
  by rewrite drop_length_take.
Qed.

Lemma flush_bufferedLogEntries flushAll s :
  bufferedLogEntries (flush flushAll s)
  = drop (length (logEntriesToFlush flushAll s)) (bufferedLogEntries s).
Proof.
  unfold flush, flushBuffered, logEntriesToFlush, logEntryFlushCount,
    eventsToFlush, splice0; simpl.
  by rewrite drop_length_take.
Qed.

Lemma eventsToFlush_prefix flushAll s :
  bufferedEvents s = eventsToFlush flushAll s ++ bufferedEvents (flush flushAll s).
Proof.
  rewrite flush_bufferedEvents. unfold eventsToFlush, splice0; simpl.
  by rewrite drop_length_take, take_drop.
Qed.

Lemma logEntriesToFlush_prefix flushAll s :
  bufferedLogEntries s
  = logEntriesToFlush flushAll s ++ bufferedLogEntries (flush flushAll s).
Proof.
  rewrite flush_bufferedLogEntries. unfold logEntriesToFlush, splice0; simpl.
  by rewrite drop_length_take, take_drop.
Qed.

Lemma streamEvents_bufferedEvents evs s :
  bufferedEvents (streamEvents evs s) = bufferedEvents s ++ evs.
Proof.
  unfold streamEvents. revert s.
  induction evs as [|ev evs IH]; intros s; simpl.
  - by rewrite app_nil_r.
  - rewrite IH. simpl. by rewrite <- app_assoc.
Qed.

Lemma streamEvents_bufferedLogEntries evs s :
  bufferedLogEntries (streamEvents evs s) = bufferedLogEntries s.
Proof.
  unfold streamEvents. revert s.
  induction evs as [|ev evs IH]; intros s; simpl; [done|by rewrite IH].
Qed.

Lemma effects_shape flushAll s :
  effects flushAll s
  = (if (0 <? length (eventsToFlush flushAll s))%nat
     then [ ConsoleLog BlankLine;
            ConsoleLog (WouldPostEvents (length (eventsToFlush flushAll s)));
            ConsoleLog BlankLine ]
     else [])
    ++ (if (0 <? length (logEntriesToFlush flushAll s))%nat
        then [ ConsoleLog (WouldPostLogEntries (length (logEntriesToFlush flushAll s))) ]
        else []).
Proof. reflexivity. Qed.

(** *** The batch cap *)

(** C3.  A capped flush removes a prefix of each queue (FIFO), as many
    events as the cap of 200 allows and then as many log entries as the
    rest of the cap allows, hence at most 200 records in all; 250 queued
    events leave in two capped flushes of 200 and 50; a flush with
    [flushAll] set empties both queues whatever their size. *)
Theorem flushBuffered_batch_cap
    (s : BufferedEventStream) (sid : string) (evs : list StreamEvent)
    (H250 : length evs = 250) :
  (bufferedEvents s = eventsToFlush false s ++ bufferedEvents (flush false s)
   ∧ bufferedLogEntries s
     = logEntriesToFlush false s ++ bufferedLogEntries (flush false s)
   ∧ length (eventsToFlush false s) = 200 `min` length (bufferedEvents s)
   ∧ length (logEntriesToFlush false s)
     = (200 - length (eventsToFlush false s)) `min` length (bufferedLogEntries s)
   ∧ length (eventsToFlush false s) + length (logEntriesToFlush false s) ≤ 200)
  ∧ (let s0 := streamEvents evs (newStream sid) in
     let s1 := flush false s0 in
     let s2 := flush false s1 in
     eventsToFlush false s0 = take 200 evs
     ∧ length (eventsToFlush false s0) = 200
     ∧ logEntriesToFlush false s0 = []
     ∧ bufferedEvents s1 = drop 200 evs
     ∧ eventsToFlush false s1 = drop 200 evs
     ∧ length (eventsToFlush false s1) = 50
     ∧ bufferedEvents s2 = []
     ∧ bufferedLogEntries s2 = [])
  ∧ (bufferedEvents s = eventsToFlush true s
     ∧ bufferedLogEntries s = logEntriesToFlush true s
     ∧ bufferedEvents (flush true s) = []
     ∧ bufferedLogEntries (flush true s) = []).
Proof.
  split; [|split].
  - split; [apply eventsToFlush_prefix|].
    split; [apply logEntriesToFlush_prefix|].
    unfold logEntriesToFlush, logEntryFlushCount, eventsToFlush, splice0,
      MAX_BATCH_SIZE; cbn [fst].
    rewrite !length_take. lia.
  - cbv zeta.
    assert (Hs0 : bufferedEvents (streamEvents evs (newStream sid)) = evs)
      by (by rewrite streamEvents_bufferedEvents).
    assert (Hl0 : bufferedLogEntries (streamEvents evs (newStream sid)) = [])
      by (by rewrite streamEvents_bufferedLogEntries).
    assert (He0 : eventsToFlush false (streamEvents evs (newStream sid))
                  = take 200 evs)
      by (unfold eventsToFlush, splice0; cbn [fst]; by rewrite Hs0).
    assert (Hs1 : bufferedEvents (flush false (streamEvents evs (newStream sid)))
                  = drop 200 evs).
    { rewrite flush_bufferedEvents, He0, Hs0, length_take. f_equal. lia. }
    assert (He1 : eventsToFlush false (flush false (streamEvents evs (newStream sid)))
                  = drop 200 evs).
    { unfold eventsToFlush, splice0; cbn [fst]. rewrite Hs1.
      apply take_ge. rewrite length_drop. unfold MAX_BATCH_SIZE. lia. }
    repeat split.
    + exact He0.
    + rewrite He0, length_take. lia.
    + unfold logEntriesToFlush, splice0; cbn [fst]. rewrite Hl0. by rewrite take_nil.
    + exact Hs1.
    + exact He1.
    + rewrite He1, length_drop. lia.
    + rewrite flush_bufferedEvents, He1, Hs1. apply drop_all.
    + rewrite !flush_bufferedLogEntries, Hl0. by rewrite !drop_nil.
  - assert (He : eventsToFlush true s = bufferedEvents s)
      by (unfold eventsToFlush, splice0; cbn [fst]; apply firstn_all).
    assert (Hl : logEntriesToFlush true s = bufferedLogEntries s)
      by (unfold logEntriesToFlush, logEntryFlushCount, splice0; cbn [fst];
          apply firstn_all).
    repeat split.
    + by rewrite He.
    + by rewrite Hl.
    + rewrite flush_bufferedEvents, He. apply drop_all.
    + rewrite flush_bufferedLogEntries, Hl. apply drop_all.
Qed.

(** *** Nothing is posted *)

(** Whatever the queues hold, a flush prints one "would post" line for each
    kind of which it removed records, with their number, and no effect of
    it is a POST: the request bodies reach no sink. *)
Lemma flushBuffered_posts_nothing (flushAll : bool) (s : BufferedEventStream) :
  effects flushAll s
  = match eventsToFlush flushAll s with
    | [] => []
    | evs => [ ConsoleLog BlankLine; ConsoleLog (WouldPostEvents (length evs));
               ConsoleLog BlankLine ]
    end
    ++ match logEntriesToFlush flushAll s with
       | [] => []
       | les => [ ConsoleLog (WouldPostLogEntries (length les)) ]
       end
  ∧ List.filter isPost (effects flushAll s) = [].
Proof.
  rewrite effects_shape.
  by destruct (eventsToFlush flushAll s), (logEntriesToFlush flushAll s).
Qed.

End Stream.

(** Concrete records for the scenarios. *)
Definition sampleEvent : @StreamEvent unit :=
  {| name := "taskComplete"; payload := tt |}.

Definition sampleLogEntry : @LogEntryEvent unit unit :=
  {| key := "entry-1"; parentKey := None; revision := 0;
     msg := inl "building"; data := None; metadata := None; section := None |}.

(** C6.  Two events and one log entry are queued and flushed.  The flush
    removes all three and prints that it would post them; no request is
    posted, neither [{ sessionId, events }] nor [{ sessionId, logEntries }]:
    the removed batches are handed to no sink. *)
Theorem flushBuffered_drops_batches :
  let s := streamLogEntry sampleLogEntry
             (streamEvents [sampleEvent; sampleEvent]
                (@newStream unit unit unit "session-1")) in
  length (eventsToFlush false s) = 2
  ∧ length (logEntriesToFlush false s) = 1
  ∧ flushBuffered false s
    = ([ ConsoleLog BlankLine; ConsoleLog (WouldPostEvents 2); ConsoleLog BlankLine;
         ConsoleLog (WouldPostLogEntries 1) ],
       newStream "session-1")
  ∧ List.filter isPost (effects false s) = [].
Proof. by repeat split. Qed.

Lemma flushBuffered_batch_cap_witness :
  length (replicate 250 sampleEvent) = 250
  ∧ bufferedEvents
      (flush false
         (flush false
            (streamEvents (replicate 250 sampleEvent)
               (@newStream unit unit unit "session-1")))) = [].
Proof.
  split; [reflexivity|].
  pose proof (flushBuffered_batch_cap (LogEntryMetadata := unit)
                (LogEntryData := unit) (newStream "session-0") "session-1"
                (replicate 250 sampleEvent) eq_refl) as (_ & H & _).
  apply H.
Defined.

(** ** More on the buffer: the cap, the periodic flush, the event bus *)

Section Draining.
Context {EventPayload LogEntryMetadata LogEntryData : Type}.

Local Abbreviation Stream :=
  (@BufferedEventStream EventPayload LogEntryMetadata LogEntryData).

(** The number of records waiting in both queues. *)
Definition buffered (s : Stream) : nat :=
  length (bufferedEvents s) + length (bufferedLogEntries s).

(** What the interval callback does [k] times in a row when nothing is
    enqueued in between: [flushBuffered({ flushAll: false })]. *)
Fixpoint flushTimes (k : nat) (s : Stream) : Stream :=
  match k with
  | 0 => s
  | S k' => flush false (flushTimes k' s)
  end.

Lemma flush_false_queues (s : Stream) :
  bufferedEvents (flush false s) = drop 200 (bufferedEvents s)
  ∧ bufferedLogEntries (flush false s)
    = drop (200 - length (bufferedEvents s)) (bufferedLogEntries s).
Proof.
  rewrite flush_bufferedEvents, flush_bufferedLogEntries.
  unfold logEntriesToFlush, logEntryFlushCount, eventsToFlush, splice0,
    MAX_BATCH_SIZE; cbn [fst].
  rewrite !drop_length_take. split; [done|].
  rewrite length_take.
  destruct (decide (200 ≤ length (bufferedEvents s))) as [Hge|Hlt].
  - by replace (200 - 200 `min` length (bufferedEvents s))
      with (200 - length (bufferedEvents s)) by lia.
  - by rewrite Nat.min_r by lia.
Qed.

(** X1.  A capped flush always fills the cap when it can: it removes
    exactly [min 200 n] of the [n] records that wait, whatever their
    kinds. *)
Theorem flush_removes_min_cap (s : Stream) :
  buffered (flush false s) = buffered s - 200
  ∧ length (eventsToFlush false s) + length (logEntriesToFlush false s)
    = 200 `min` buffered s.
Proof.
  unfold buffered.
  destruct (flush_false_queues s) as [-> ->].
  rewrite !length_drop.
  unfold logEntriesToFlush, logEntryFlushCount, eventsToFlush, splice0,
    MAX_BATCH_SIZE; cbn [fst].
  rewrite !length_take. lia.
Qed.

(** X2.  Structured events go first: as long as 200 or more of them wait,
    a capped flush takes 200 events and no log entry at all, and the queue
    of log entries is left as it is. *)
Theorem events_hold_back_logEntries (s : Stream)
    (Hfull : 200 ≤ length (bufferedEvents s)) :
  length (eventsToFlush false s) = 200
  ∧ logEntriesToFlush false s = []
  ∧ bufferedLogEntries (flush false s) = bufferedLogEntries s.
Proof.
  destruct (flush_false_queues s) as [_ ->].
  unfold logEntriesToFlush, logEntryFlushCount, eventsToFlush, splice0,
    MAX_BATCH_SIZE; cbn [fst].
  rewrite !length_take.
  replace (200 - 200 `min` length (bufferedEvents s)) with 0 by lia.
  replace (200 - length (bufferedEvents s)) with 0 by lia.
  split; [lia|]. by split.
Qed.

Lemma flushTimes_drop (k : nat) (s : Stream) :
  bufferedEvents (flushTimes k s) = drop (200 * k) (bufferedEvents s)
  ∧ bufferedLogEntries (flushTimes k s)
    = drop (200 * k - length (bufferedEvents s)) (bufferedLogEntries s).
Proof.
  induction k as [|k [IHe IHl]].
  - simpl. by rewrite Nat.sub_0_l.
  - cbn [flushTimes].
    destruct (flush_false_queues (flushTimes k s)) as [-> ->].
    rewrite IHe, IHl, !drop_drop, length_drop. split; f_equal; lia.
Qed.

(** X3.  [k] periodic flushes in a row remove the first [200 * k] events
    and, once the events are gone, the log entries that the rest of those
    caps has room for: what was removed and what is left make up the
    original queues, so nothing is reordered, skipped or taken twice. *)
Theorem flushTimes_queues (k : nat) (s : Stream) :
  bufferedEvents s
  = take (200 * k) (bufferedEvents s) ++ bufferedEvents (flushTimes k s)
  ∧ bufferedLogEntries s
    = take (200 * k - length (bufferedEvents s)) (bufferedLogEntries s)
      ++ bufferedLogEntries (flushTimes k s)
  ∧ buffered (flushTimes k s) = buffered s - 200 * k.
Proof.
  unfold buffered. destruct (flushTimes_drop k s) as [-> ->].
  rewrite !take_drop, !length_drop. repeat split; lia.
Qed.

(** X4.  Periodic flushes drain the buffer: once [200 * k] reaches the
    number of waiting records, [k] flushes leave both queues empty. *)
Theorem flushTimes_drains (k : nat) (s : Stream)
    (Hk : buffered s ≤ 200 * k) :
  bufferedEvents (flushTimes k s) = []
  ∧ bufferedLogEntries (flushTimes k s) = [].
Proof.
    unfold buffered in Hk.
  destruct (flushTimes_drop k s) as [-> ->].
  split; apply drop_ge; lia.
Qed.

(** *** The subscription to the event bus

    The constructor subscribes with [eventBus.onAny]: an event whose name is
    one of [loggerEventNames] is queued as a log entry, any other as a
    structured event.  [loggerEventNames] belongs to the events module; the
    cast [payload as LogEntryEvent] changes nothing at run time and is a
    function here only because the two are different types. *)
Context (loggerEventNames : list string)
        (asLogEntryEvent : EventPayload → @LogEntryEvent LogEntryMetadata LogEntryData).

Definition isLoggerEvent (ev : string * EventPayload) : Prop :=
  fst ev ∈ loggerEventNames.

Definition onAny (ev : string * EventPayload) (s : Stream) : Stream :=
  if bool_decide (isLoggerEvent ev)
  then streamLogEntry (asLogEntryEvent (snd ev)) s
  else streamEvent {| name := fst ev; payload := snd ev |} s.

(** The bus delivers a sequence of events, oldest first. *)
Definition deliver (evs : list (string * EventPayload)) (s : Stream) : Stream :=
  fold_left (λ acc ev, onAny ev acc) evs s.

(** X5.  Every event the bus delivers is queued exactly once, in the queue
    of its kind and behind what that queue already holds, in the order of
    arrival. *)
Theorem deliver_queues (evs : list (string * EventPayload)) (s : Stream) :
  bufferedLogEntries (deliver evs s)
  = bufferedLogEntries s
    ++ ((λ ev, asLogEntryEvent (snd ev)) <$> filter isLoggerEvent evs)
  ∧ bufferedEvents (deliver evs s)
    = bufferedEvents s
      ++ ((λ ev, {| name := fst ev; payload := snd ev |})
            <$> filter (λ ev, ¬ isLoggerEvent ev) evs)
  ∧ buffered (deliver evs s) = buffered s + length evs.
Proof.
  unfold deliver. revert s.
  induction evs as [|ev evs IH]; intros s; cbn [fold_left].
  - rewrite !filter_nil. simpl. rewrite !app_nil_r. unfold buffered. by repeat split; try lia.
  - destruct (IH (onAny ev s)) as (IHl & IHe & IHn).
    rewrite IHl, IHe, IHn. rewrite !filter_cons. unfold onAny, buffered.
    destruct (decide (isLoggerEvent ev)) as [Hl|Hl].
    + rewrite (bool_decide_eq_true_2 _ Hl).
      destruct (decide (¬ isLoggerEvent ev)); [done|].
      simpl. rewrite <- !app_assoc, !length_app. simpl. repeat split; lia.
    + rewrite (bool_decide_eq_false_2 _ Hl).
      destruct (decide (¬ isLoggerEvent ev)); [|done].
      simpl. rewrite <- !app_assoc, !length_app. simpl. repeat split; lia.
Qed.

(** *** The shutdown hook

    The constructor starts the interval that flushes every 3000 ms and
    registers a cleanup function that clears the interval, if it is still
    set, and flushes everything.  [intervalId] is [true] while the interval
    is set. *)
Record Service : Type := mkService {
  stream : Stream;
  intervalId : bool
}.

Definition start (sid : string) : Service :=
  {| stream := newStream sid; intervalId := true |}.

(** The interval callback; a cleared interval does not fire. *)
Definition intervalTick (sv : Service) : list Effect * Service :=
  if intervalId sv then
    let '(out, s) := flushBuffered false (stream sv) in
    (out, {| stream := s; intervalId := true |})
  else ([], sv).

(** The function registered as "flushAllBufferedEventsAndLogEntries". *)
Definition shutdownHook (sv : Service) : list Effect * Service :=
  let '(out, s) := flushBuffered true (stream sv) in
  (out, {| stream := s; intervalId := false |}).

(** X20.  The shutdown hook leaves nothing behind, however much is
    queued: both queues are empty and the interval is cleared.  It
    announces all events and all log entries that waited, and running it
    again, or a late tick of the interval, does nothing at all. *)
Theorem shutdownHook_final (sv : Service) :
  let '(out, sv') := shutdownHook sv in
  bufferedEvents (stream sv') = []
  ∧ bufferedLogEntries (stream sv') = []
  ∧ intervalId sv' = false
  ∧ out = match bufferedEvents (stream sv) with
          | [] => []
          | evs => [ ConsoleLog BlankLine; ConsoleLog (WouldPostEvents (length evs));
                     ConsoleLog BlankLine ]
          end
          ++ match bufferedLogEntries (stream sv) with
             | [] => []
             | les => [ ConsoleLog (WouldPostLogEntries (length les)) ]
             end
  ∧ shutdownHook sv' = ([], sv')
  ∧ intervalTick sv' = ([], sv').
Proof.
  unfold shutdownHook, intervalTick, flushBuffered, splice0; simpl.
  rewrite !firstn_all, !drop_all. simpl.
  split; [done|]. split; [done|]. split; [done|]. split; [|done].
  by destruct (bufferedEvents (stream sv)), (bufferedLogEntries (stream sv)).
Qed.

End Draining.

(** Two hundred events and one log entry: the log entry has to wait. *)
Lemma events_hold_back_logEntries_witness :
  let s := streamLogEntry sampleLogEntry
             (streamEvents (replicate 200 sampleEvent)
                (@newStream unit unit unit "session-1")) in
  200 ≤ length (bufferedEvents s)
  ∧ bufferedLogEntries (flush false s) = [sampleLogEntry].
Proof.
  cbv zeta.
  assert (H : 200 ≤ length (bufferedEvents
                (streamLogEntry sampleLogEntry
                   (streamEvents (replicate 200 sampleEvent)
                      (@newStream unit unit unit "session-1")))))
    by (vm_compute; lia).
  split; [exact H|].
  destruct (events_hold_back_logEntries _ H) as (_ & _ & ->).
  reflexivity.
Defined.

(** 250 events and one log entry are gone after two periodic flushes. *)
Lemma flushTimes_drains_witness :
  let s := streamLogEntry sampleLogEntry
             (streamEvents (replicate 250 sampleEvent)
                (@newStream unit unit unit "session-1")) in
  buffered s ≤ 200 * 2
  ∧ bufferedEvents (flushTimes 2 s) = []
  ∧ bufferedLogEntries (flushTimes 2 s) = [].
Proof.
  cbv zeta.
  assert (H : buffered (streamLogEntry sampleLogEntry
                (streamEvents (replicate 250 sampleEvent)
                   (@newStream unit unit unit "session-1"))) ≤ 200 * 2)
    by (vm_compute; lia).
  split; [exact H|].
  exact (flushTimes_drains 2 _ H).
Defined.

End EventStream.

(** * Strings as the writer uses them *)

Definition newline : ascii := "010"%char.

(** [s.split("\n")]: always at least one piece. *)
Fixpoint split_nl (s : string) : list string :=
  match s with
  | EmptyString => [EmptyString]
  | String c rest =>
      if Ascii.eqb c newline then EmptyString :: split_nl rest
      else match split_nl rest with
           | [] => [String c EmptyString]
           | piece :: pieces => String c piece :: pieces
           end
  end.

(** [arr.join("")]. *)
Definition join (pieces : list string) : string :=
  fold_right String.append EmptyString pieces.

(** [str.slice(0, x)] and [str.slice(x)] for a non-negative [x]. *)
Definition slice_to (x : nat) (str : string) : string := substring 0 x str.
Definition slice_from (x : nat) (str : string) : string :=
  substring x (String.length str - x) str.

(** Number of newline characters of a string. *)
Fixpoint count_nl (s : string) : nat :=
  match s with
  | EmptyString => 0
  | String c rest => (if Ascii.eqb c newline then 1 else 0) + count_nl rest
  end.

Lemma split_nl_length (s : string) : length (split_nl s) = S (count_nl s).
Proof.
  induction s as [|c rest IH]; simpl; [done|].
  destruct (Ascii.eqb c newline); simpl.
  - by rewrite IH.
  - destruct (split_nl rest); simpl in *; lia.
Qed.

Lemma count_nl_append (a b : string) :
  count_nl (a +:+ b) = count_nl a + count_nl b.
Proof. induction a as [|c a IH]; simpl; [done|]. rewrite IH. lia. Qed.



(** * The fullscreen terminal writer *)
Module Fullscreen.

(** ** The log graph, as the writer reads it *)

(** Modelled from the spec: the [status] of an entry's message state, "one
    of [active | done | error | unknown]"; the declaration lives in the
    log-entry module. *)
Inductive EntryStatus : Type :=
  | StatusActive | StatusDone | StatusError | StatusUnknown.

Global Instance EntryStatus_eq_dec : EqDecision EntryStatus.
Proof. solve_decision. Defined.

(** A [LogEntry] as far as this file reads it: [key], [level],
    [fromStdStream], [getMessageState().status], and the entries below it.
    [indent] and [msg] stand for the rest of the message state, which only
    the renderers look at. *)
Module LogEntry.
#[local] Set Warnings "-register-all".
Inductive t : Type := mk {
  key : string;
  level : nat;
  status : EntryStatus;
  fromStdStream : bool;
  indent : nat;
  msg : string;
  children : list t
}.
End LogEntry.

Module Logger.
Record t : Type := mk { children : list LogEntry.t }.
End Logger.

(** Modelled from the spec: the traversal behind [getChildEntries] of the
    logger utilities, "parent before children, siblings in insertion
    order"; a node is followed by everything below it. *)
Fixpoint getChildNodes (node : LogEntry.t) : list LogEntry.t :=
  node :: flat_map getChildNodes (LogEntry.children node).

(** Modelled from the spec: [getChildEntries(logger)] of the logger
    utilities, the snapshot of the graph as an "ordered sequence of
    LogEntryView (depth-first)". *)
Definition getChildEntries (logger : Logger.t) : list LogEntry.t :=
  flat_map getChildNodes (Logger.children logger).

(** ** Render records *)

Definition Coords : Type := nat * nat.

Module TerminalEntry.
Record t : Type := mk {
  key : string;
  text : string;
  lineNumber : nat;
  spinnerCoords : option Coords
}.
End TerminalEntry.

(** ** What the file imports

    The renderers module, [wrap-ansi], [chalk], [elegant-spinner] and the
    [LogLevel] enum are outside this file; the writer is verified for any of
    them. *)
Record Imports : Type := mkImports {
  (** [leftPad(entry)] *)
  leftPad : LogEntry.t → string;
  (** [renderMsg(entry)] *)
  renderMsg : LogEntry.t → string;
  (** [formatForTerminal(entry, "fancy")] *)
  formatForTerminal : LogEntry.t → string;
  (** [basicRender(entry, logger)], a string or null *)
  basicRender : LogEntry.t → Logger.t → option string;
  (** [wrapAnsi(str, columns, { trim: false, hard: true })] *)
  wrapAnsi : string → Z → string;
  (** [chalk.cyan] *)
  spinnerStyle : string → string;
  (** the frames that an [elegantSpinner()] generator cycles through *)
  frames : list string;
  (** [LogLevel.error] of the numeric [LogLevel] enum *)
  LogLevel_error : nat
}.

(** ** Calls on the screen, the main box and the process *)
Inductive Call : Type :=
  | ScreenRender                              (* screen.render() *)
  | ScreenDestroy                             (* screen.destroy() *)
  | MainSetLine (y : nat) (line : string)     (* main.setLine(y, line) *)
  | MainSetContent (content : string)         (* main.setContent(content) *)
  | MainSetScrollPerc (perc : nat)            (* main.setScrollPerc(perc) *)
  | CursorShow                                (* cliCursor.show(process.stdout) *)
  | StdoutWrite (line : string).              (* process.stdout.write(line) *)

Global Instance Call_eq_dec : EqDecision Call.
Proof. solve_decision. Defined.

Definition isSetLine (c : Call) : bool :=
  match c with MainSetLine _ _ => true | _ => false end.

(** What the main box holds, one string per line.  [setLine(y, line)] of a
    blessed element pads the content with empty lines up to row [y] and then
    stores [line] there; [setContent] replaces everything.  The box is
    taken to hold a line as it was handed over.  A blessed element does so
    for a line of printable characters and colour sequences ([keptAsIs]
    below); in any other line it replaces a tab by spaces, drops control
    characters and breaks the row at a carriage return.  What is proved
    about the calls issued does not depend on this; what is proved about
    the content of the box after a line was written is stated for lines
    that the box keeps as they are. *)
Definition setLine (y : nat) (line : string) (lines : list string) : list string :=
  <[y := line]> (lines ++ replicate (S y - length lines) EmptyString).

Definition applyCall (c : Call) (lines : list string) : list string :=
  match c with
  | MainSetLine y line => setLine y line lines
  | MainSetContent content => split_nl content
  | _ => lines
  end.

(** [getLine(y)] of a blessed element clamps the row to the content. *)
Definition getLine (y : nat) (lines : list string) : string :=
  nth (y `min` (length lines - 1)) lines EmptyString.

(** ** The writer object

        [intervalID] holds the entries that the running [setInterval] callback
    closes over, [None] when no spinner loop runs.  [logger] is the logger
    last handed to [handleGraphChange]; the graph calls [onGraphChange] on
    every change, so this is the graph as it is.  [scrolling] is set and
    cleared by the page-up and page-down keys, which are not modelled: it is
    an arbitrary flag here.  [mainLines] and [mainWidth] are the
    content and the width of [this.main]; the box exists exactly when
    [initialized] is set, since [init] creates it and sets the flag in one
    go.  [calls] is the trace of calls issued so far, oldest first, and
    [timeouts] the pending [setTimeout] callbacks of [handleGraphChange],
    each with the time it is due and the entry it closes over. *)
Record Writer : Type := mkWriter {
  level : nat;
  spinners : gmap string nat;
  intervalID : option (list TerminalEntry.t);
  lastInterceptAt : option Z;
  updatePending : bool;
  initialized : bool;
  errorMessages : list string;
  prevOutput : list string;
  scrolling : bool;
  logger : option Logger.t;
  mainLines : list string;
  mainWidth : Z;
  calls : list Call;
  timeouts : list (Z * LogEntry.t)
}.

Definition with_level (v : nat) (w : Writer) : Writer :=
  mkWriter v (spinners w) (intervalID w) (lastInterceptAt w) (updatePending w)
    (initialized w) (errorMessages w) (prevOutput w) (scrolling w) (logger w)
    (mainLines w) (mainWidth w) (calls w) (timeouts w).
Definition with_spinners (v : gmap string nat) (w : Writer) : Writer :=
  mkWriter (level w) v (intervalID w) (lastInterceptAt w) (updatePending w)
    (initialized w) (errorMessages w) (prevOutput w) (scrolling w) (logger w)
    (mainLines w) (mainWidth w) (calls w) (timeouts w).
Definition with_intervalID (v : option (list TerminalEntry.t)) (w : Writer) : Writer :=
  mkWriter (level w) (spinners w) v (lastInterceptAt w) (updatePending w)
    (initialized w) (errorMessages w) (prevOutput w) (scrolling w) (logger w)
    (mainLines w) (mainWidth w) (calls w) (timeouts w).
Definition with_lastInterceptAt (v : option Z) (w : Writer) : Writer :=
  mkWriter (level w) (spinners w) (intervalID w) v (updatePending w)
    (initialized w) (errorMessages w) (prevOutput w) (scrolling w) (logger w)
    (mainLines w) (mainWidth w) (calls w) (timeouts w).
Definition with_updatePending (v : bool) (w : Writer) : Writer :=
  mkWriter (level w) (spinners w) (intervalID w) (lastInterceptAt w) v
    (initialized w) (errorMessages w) (prevOutput w) (scrolling w) (logger w)
    (mainLines w) (mainWidth w) (calls w) (timeouts w).
Definition with_initialized (v : bool) (w : Writer) : Writer :=
  mkWriter (level w) (spinners w) (intervalID w) (lastInterceptAt w)
    (updatePending w) v (errorMessages w) (prevOutput w) (scrolling w) (logger w)
    (mainLines w) (mainWidth w) (calls w) (timeouts w).
Definition with_errorMessages (v : list string) (w : Writer) : Writer :=
  mkWriter (level w) (spinners w) (intervalID w) (lastInterceptAt w)
    (updatePending w) (initialized w) v (prevOutput w) (scrolling w) (logger w)
    (mainLines w) (mainWidth w) (calls w) (timeouts w).
Definition with_prevOutput (v : list string) (w : Writer) : Writer :=
  mkWriter (level w) (spinners w) (intervalID w) (lastInterceptAt w)
    (updatePending w) (initialized w) (errorMessages w) v (scrolling w) (logger w)
    (mainLines w) (mainWidth w) (calls w) (timeouts w).
Definition with_logger (v : option Logger.t) (w : Writer) : Writer :=
  mkWriter (level w) (spinners w) (intervalID w) (lastInterceptAt w)
    (updatePending w) (initialized w) (errorMessages w) (prevOutput w)
    (scrolling w) v (mainLines w) (mainWidth w) (calls w) (timeouts w).
Definition with_mainLines (v : list string) (w : Writer) : Writer :=
  mkWriter (level w) (spinners w) (intervalID w) (lastInterceptAt w)
    (updatePending w) (initialized w) (errorMessages w) (prevOutput w)
    (scrolling w) (logger w) v (mainWidth w) (calls w) (timeouts w).
Definition with_timeouts (v : list (Z * LogEntry.t)) (w : Writer) : Writer :=
  mkWriter (level w) (spinners w) (intervalID w) (lastInterceptAt w)
    (updatePending w) (initialized w) (errorMessages w) (prevOutput w)
    (scrolling w) (logger w) (mainLines w) (mainWidth w) (calls w) v.

(** Issue a call: it joins the trace and acts on the main box. *)
Definition emit (c : Call) (w : Writer) : Writer :=
  mkWriter (level w) (spinners w) (intervalID w) (lastInterceptAt w)
    (updatePending w) (initialized w) (errorMessages w) (prevOutput w)
    (scrolling w) (logger w) (applyCall c (mainLines w)) (mainWidth w)
    (calls w ++ [c]) (timeouts w).

(** [new FullscreenTerminalWriter(level)] on a terminal [width] columns
    wide. *)
Definition newWriter (lvl : nat) (width : Z) : Writer :=
  {| level := lvl; spinners := ∅; intervalID := None; lastInterceptAt := None;
     updatePending := false; initialized := false; errorMessages := [];
     prevOutput := []; scrolling := false; logger := None;
     mainLines := []; mainWidth := width; calls := []; timeouts := [] |}.

(** ** The methods *)
Section Methods.
Context (env : Imports).

Definition THROTTLE_MS : Z := 600.

(** A generator made by [elegantSpinner()] keeps an index [i], initially 0,
    and each call returns [frames[i = ++i % frames.length]]. *)
Definition nextFrame (i : nat) : nat * string :=
  let i' := (i + 1) `mod` length (frames env) in
  (i', nth i' (frames env) EmptyString).

(** [tickSpinner(key)]; the map holds the index of every generator made and
    not deleted so far, and a key without a generator gets a fresh one.
    This is [this.spinners[key]] for the keys of entries, which are
    generated identifiers.  [this.spinners] is a plain object: for a key
    that names a member of [Object.prototype] ([inheritedNames] below) the
    lookup finds the inherited member, no generator is made, and the call
    yields whatever that member returns or throws.  What is proved about
    the frames that [tickSpinner] yields is stated for the other keys. *)
Definition tickSpinner (key : string) (sp : gmap string nat)
  : string * gmap string nat :=
  let '(i', frame) := nextFrame (default 0 (sp !! key)) in
  (frame, <[key := i']> sp).

(** [spinnerBytes = spinnerStyle(elegantSpinner()()).length]. *)
Definition spinnerBytes : nat :=
  String.length (spinnerStyle env (snd (nextFrame 0))).

Definition stopLoop (w : Writer) : Writer :=
  match intervalID w with
  | Some _ => with_intervalID None w
  | None => w
  end.

Definition startLoop (entries : list TerminalEntry.t) (w : Writer) : Writer :=
  with_intervalID (Some entries) (stopLoop w).

(** The test of the loop of [write]: [prevOutput.length < y ||
    prevOutput[y] !== line]. *)
Definition rowChanged (prev : list string) (y : nat) (line : string) : bool :=
  (length prev <? y)%nat || negb (bool_decide (prev !! y = Some line)).

(** The [for] loop of [write], from row [y] on; the flag is [changed]. *)
Fixpoint writeRows (y : nat) (output : list string) (changed : bool) (w : Writer)
  : bool * Writer :=
  match output with
  | [] => (changed, w)
  | line :: rest =>
      if rowChanged (prevOutput w) y line
      then writeRows (S y) rest true (emit (MainSetLine y line) w)
      else writeRows (S y) rest changed w
  end.

Definition write (output : list string) (w : Writer) : Writer :=
  let '(changed, w1) := writeRows 0 output false w in
  if changed then
    let w2 := if scrolling w1 then w1 else emit (MainSetScrollPerc 100) w1 in
    emit ScreenRender w2
  else w1.

Definition hasSpinner (e : TerminalEntry.t) : Prop :=
  is_Some (TerminalEntry.spinnerCoords e).

Global Instance hasSpinner_dec e : Decision (hasSpinner e).
Proof. unfold hasSpinner. apply _. Defined.

Definition flatten (terminalEntries : list TerminalEntry.t) : list string :=
  split_nl (join (TerminalEntry.text <$> terminalEntries)).

Definition render (terminalEntries : list TerminalEntry.t) (didWrite : bool)
    (w : Writer) : Writer :=
  let output := flatten terminalEntries in
  let w1 := if didWrite then w else write output w in
  let w2 := with_prevOutput output w1 in
  let entriesWithspinner := filter hasSpinner terminalEntries in
  if (0 <? length entriesWithspinner)%nat
  then startLoop entriesWithspinner w2
  else stopLoop w2.

(** One round of the [reduce] of [fullRender]: the accumulator, the
    closed-over [currentLineNumber] and [this.spinners]. *)
Definition renderEntry (width : Z)
    (st : list TerminalEntry.t * nat * gmap string nat) (entry : LogEntry.t)
  : list TerminalEntry.t * nat * gmap string nat :=
  let '(acc, currentLineNumber, sp) := st in
  let '(spinnerFrame, spinnerX, spinnerCoords, sp1) :=
    if decide (LogEntry.status entry = StatusActive) then
      let spinnerX := String.length (leftPad env entry) in
      let '(frame, sp1) := tickSpinner (LogEntry.key entry) sp in
      (frame, spinnerX, Some (spinnerX, currentLineNumber), sp1)
    else (EmptyString, 0, None, delete (LogEntry.key entry) sp) in
  let str :=
    if LogEntry.fromStdStream entry then renderMsg env entry
    else formatForTerminal env entry in
  let str1 :=
    match spinnerFrame with
    | EmptyString => str
    | _ => slice_to spinnerX str +:+ spinnerStyle env spinnerFrame +:+ " "
           +:+ slice_from spinnerX str
    end in
  let text := wrapAnsi env str1 (width - 2)%Z in
  let acc1 :=
    match text with
    | EmptyString => acc
    | _ => acc ++ [ {| TerminalEntry.key := LogEntry.key entry;
                       TerminalEntry.lineNumber := currentLineNumber;
                       TerminalEntry.spinnerCoords := spinnerCoords;
                       TerminalEntry.text := text |} ]
    end in
  (acc1, currentLineNumber + (length (split_nl text) - 1), sp1).

(** The filter of [fullRender]: [this.level >= entry.level]. *)
Definition visible (lvl : nat) (entry : LogEntry.t) : Prop :=
  LogEntry.level entry ≤ lvl.

Global Instance visible_dec lvl entry : Decision (visible lvl entry).
Proof. unfold visible. apply _. Defined.

Definition fullRender (lg : Logger.t) (w : Writer)
  : list TerminalEntry.t * Writer :=
  let entries := filter (visible (level w)) (getChildEntries lg) in
  let '(acc, _, sp) :=
    fold_left (renderEntry (mainWidth w)) entries ([], 0, spinners w) in
  (acc, with_spinners sp w).

(** The local constant [throttleProcessing]:
    [this.lastInterceptAt && now - this.lastInterceptAt < THROTTLE_MS],
    where [null] and [0] count as false. *)
Definition throttleProcessing (now : Z) (w : Writer) : bool :=
  match lastInterceptAt w with
  | Some t => negb (t =? 0)%Z && (now - t <? THROTTLE_MS)%Z
  | None => false
  end.

(** [this.render(this.fullRender(logger))]. *)
Definition renderGraph (lg : Logger.t) (w : Writer) : Writer :=
  let '(terminalEntries, w1) := fullRender lg w in
  render terminalEntries false w1.

(** The part of [handleGraphChange] below the throttling block. *)
Definition renderNow (log : LogEntry.t) (lg : Logger.t) (didWrite : bool)
    (w : Writer) : Writer :=
  let '(terminalEntries, w1) := fullRender lg w in
  match List.find
          (λ e, bool_decide (TerminalEntry.key e = LogEntry.key log))
          terminalEntries with
  | None => w1
  | Some _ => render terminalEntries didWrite w1
  end.

(** [handleGraphChange(log, logger, didWrite)]; [now] is what [Date.now()]
    returns during the call. *)
Definition handleGraphChange (now : Z) (log : LogEntry.t) (lg : Logger.t)
    (didWrite : bool) (w : Writer) : Writer :=
  let w1 := with_logger (Some lg) (with_updatePending false w) in
  if LogEntry.fromStdStream log && negb didWrite then
    let throttle := throttleProcessing now w1 in
    let w2 := with_lastInterceptAt (Some now) w1 in
    if throttle then
      let w3 := with_updatePending true (stopLoop w2) in
      with_timeouts (timeouts w3 ++ [((now + THROTTLE_MS)%Z, log)]) w3
    else renderNow log lg didWrite w2
  else renderNow log lg didWrite w1.

(** The callback handed to [setTimeout]; [lg] is the logger it closes
    over, read when the timer fires. *)
Definition fireTimeout (now : Z) (log : LogEntry.t) (lg : Logger.t) (w : Writer)
  : Writer :=
  if updatePending w then handleGraphChange now log lg true w else w.

(** [init()]: the screen and the two boxes are created, the main box with
    the content [""], and the screen is painted once.  The bottom box and
    the key handlers registered here are not part of the state. *)
Definition init (w : Writer) : Writer :=
  with_initialized true
    (emit ScreenRender (with_mainLines (split_nl EmptyString) w)).

(** [onGraphChange(entry, logger)]; an error message is kept when
    [basicRender] returns a non-empty string ([if (out)]). *)
Definition onGraphChange (now : Z) (entry : LogEntry.t) (lg : Logger.t)
    (w : Writer) : Writer :=
  let w1 :=
    if (LogEntry.level entry =? LogLevel_error env)%nat then
      match basicRender env entry lg with
      | Some (String c out) =>
          with_errorMessages (errorMessages w ++ [String c out]) w
      | _ => w
      end
    else w in
  let w2 := if initialized w1 then w1 else init w1 in
  handleGraphChange now entry lg false w2.

Definition stop (w : Writer) : Writer := stopLoop w.

(** [cleanup()].  Its first statement is [this.screen.destroy()], and
    [this.screen] is assigned by [init] and by nothing else (the constructor
    leaves it undefined): on a writer that was never initialized the call
    throws a [TypeError] before anything is done, which is [None] here. *)
Definition cleanup (w : Writer) : option Writer :=
  if initialized w then
    let w1 := emit CursorShow (emit ScreenDestroy w) in
    let w2 := fold_left (λ acc line, emit (StdoutWrite line) acc) (errorMessages w1) w1 in
    Some (with_errorMessages [] w2)
  else None.


(** [changeLevel(level)]; [this.main] exists once [init] has run. *)
Definition changeLevel (lvl : nat) (w : Writer) : Writer :=
  let w1 := with_level lvl w in
  match logger w1 with
  | Some lg =>
      if initialized w1 then
        renderGraph lg (emit (MainSetContent EmptyString) (with_prevOutput [] w1))
      else w1
  | None => w1
  end.

(** [spin(entries)], the body of the interval callback. *)
Definition spinEntry (w : Writer) (e : TerminalEntry.t) : Writer :=
  match TerminalEntry.spinnerCoords e with
  | Some (x, y) =>
      let line := getLine y (mainLines w) in
      let '(frame, sp) := tickSpinner (TerminalEntry.key e) (spinners w) in
      emit (MainSetLine y (slice_to x line +:+ spinnerStyle env frame
                           +:+ slice_from (x + spinnerBytes) line))
           (with_spinners sp w)
  | None => w
  end.

Definition spin (entries : list TerminalEntry.t) (w : Writer) : Writer :=
  emit ScreenRender (fold_left spinEntry entries w).

(** ** The event loop

    What reaches the writer, each with the time at which it happens:
    [onGraphChange(entry, logger)] after a change of the graph (with the
    graph as it is after the change), [changeLevel(level)], a tick of the
    spinner interval, [stop()], [cleanup()], and the passing of time alone.
        Before an event at time [t] is handled, every timeout due by [t] fires,
    oldest first; a timeout reads the graph as it is when it fires.  A
    [cleanup()] that throws has done nothing: the writer is as it was. *)
Inductive Event : Type :=
  | GraphChange (t : Z) (entry : LogEntry.t) (lg : Logger.t)
  | ChangeLevel (t : Z) (lvl : nat)
  | SpinnerTick (t : Z)
  | Stop (t : Z)
  | Cleanup (t : Z)
  | Idle (t : Z).

Definition eventTime (ev : Event) : Z :=
  match ev with
  | GraphChange t _ _ | ChangeLevel t _ | SpinnerTick t | Stop t | Cleanup t
  | Idle t => t
  end.

Definition runTimeouts (t : Z) (lg : Logger.t) (w : Writer) : Writer :=
  let due := List.filter (λ p, (fst p <=? t)%Z) (timeouts w) in
  let later := List.filter (λ p, negb (fst p <=? t)%Z) (timeouts w) in
  fold_left (λ acc p, fireTimeout (fst p) (snd p) lg acc) due
            (with_timeouts later w).

(** The state of the loop: the writer and the graph as it currently is. *)
Definition step (st : Writer * Logger.t) (ev : Event) : Writer * Logger.t :=
  let '(w, lg) := st in
  let w1 := runTimeouts (eventTime ev) lg w in
  match ev with
  | GraphChange t entry lg' => (onGraphChange t entry lg' w1, lg')
  | ChangeLevel _ lvl => (changeLevel lvl w1, lg)
  | SpinnerTick _ =>
      (match intervalID w1 with Some entries => spin entries w1 | None => w1 end,
       lg)
  | Stop _ => (stop w1, lg)
    | Cleanup _ => (default w1 (cleanup w1), lg)
  | Idle _ => (w1, lg)
  end.

Definition run (events : list Event) (st : Writer * Logger.t) : Writer * Logger.t :=
  fold_left step events st.

End Methods.

(** ** A concrete set of imports

    Used for the scenarios below: entries are rendered as their indentation
    followed by their message, raw entries as their message alone, lines are
    short enough for wrapping to leave them alone, styling adds nothing, and
    the spinner cycles through the four ASCII frames of [elegant-spinner]. *)
Definition plain : Imports :=
  {| leftPad := λ e, String.concat EmptyString (replicate (LogEntry.indent e) "   ");
     renderMsg := LogEntry.msg;
     formatForTerminal := λ e,
       String.concat EmptyString (replicate (LogEntry.indent e) "   ")
       +:+ LogEntry.msg e +:+ String newline EmptyString;
     basicRender := λ e _, Some (LogEntry.msg e +:+ String newline EmptyString);
     wrapAnsi := λ str _, str;
     spinnerStyle := λ frame, frame;
     frames := ["-"; "\"; "|"; "/"];
     LogLevel_error := 0 |}.

(** ** Traces *)

(** The calls issued between two states of the writer. *)
Definition issued (before after : Writer) : list Call :=
  drop (length (calls before)) (calls after).

Definition emitAll (cs : list Call) (w : Writer) : Writer :=
  fold_left (λ acc c, emit c acc) cs w.

Lemma emitAll_app cs1 cs2 w : emitAll (cs1 ++ cs2) w = emitAll cs2 (emitAll cs1 w).
Proof. unfold emitAll. apply fold_left_app. Qed.

Lemma calls_emitAll cs w : calls (emitAll cs w) = calls w ++ cs.
Proof.
  revert w. induction cs as [|c cs IH]; intros w; simpl.
  - by rewrite app_nil_r.
  - rewrite IH. simpl. by rewrite <- app_assoc.
Qed.

Lemma mainLines_emitAll cs w :
  mainLines (emitAll cs w) = fold_left (λ ls c, applyCall c ls) cs (mainLines w).
Proof. revert w. induction cs as [|c cs IH]; intros w; simpl; [done|by rewrite IH]. Qed.

(** [emit] touches the trace and the main box, nothing else. *)
Definition sameFields (w w' : Writer) : Prop :=
  level w' = level w ∧ spinners w' = spinners w ∧ intervalID w' = intervalID w
  ∧ lastInterceptAt w' = lastInterceptAt w ∧ updatePending w' = updatePending w
  ∧ initialized w' = initialized w ∧ errorMessages w' = errorMessages w
  ∧ prevOutput w' = prevOutput w ∧ scrolling w' = scrolling w
  ∧ logger w' = logger w ∧ mainWidth w' = mainWidth w ∧ timeouts w' = timeouts w.

Lemma sameFields_emitAll cs w : sameFields w (emitAll cs w).
Proof.
  revert w. induction cs as [|c cs IH]; intros w; simpl.
  - by repeat split.
  - specialize (IH (emit c w)). unfold sameFields in *; simpl in *.
    destruct IH as (?&?&?&?&?&?&?&?&?&?&?&?). by repeat split.
Qed.

Lemma issued_app w w' cs : calls w' = calls w ++ cs → issued w w' = cs.
Proof. intros H. unfold issued. rewrite H. by rewrite drop_app_length. Qed.

(** ** The diff writer *)

(** Rows of a list with their indices, counted from [y]. *)
Fixpoint indexFrom {A : Type} (y : nat) (l : list A) : list (nat * A) :=
  match l with
  | [] => []
  | x :: rest => (y, x) :: indexFrom (S y) rest
  end.

(** The rows in which a new output differs from the previous one, in the
    words of the design document: a row of the new output counts when it is
    new (its index is at or beyond the length of the previous output) or its
    content differs from the previous row at that index. *)
Definition rowDiffers (prev : list string) (row : nat * string) : Prop :=
  length prev ≤ fst row ∨ prev !! fst row ≠ Some (snd row).

Global Instance rowDiffers_dec prev row : Decision (rowDiffers prev row).
Proof. unfold rowDiffers. apply _. Defined.

Definition differingRows (prev output : list string) : list (nat * string) :=
  filter (rowDiffers prev) (indexFrom 0 output).

Definition setLineCall (row : nat * string) : Call :=
  MainSetLine (fst row) (snd row).

Lemma elem_of_indexFrom {A : Type} (l : list A) (y i : nat) (x : A) :
  (i, x) ∈ indexFrom y l ↔ y ≤ i ∧ l !! (i - y) = Some x.
Proof.
  revert y. induction l as [|a l IH]; intros y; simpl.
  - split; [by intros ?%elem_of_nil | by intros [_ ?]].
  - rewrite elem_of_cons, IH. split.
    + intros [Heq | [Hle Hl]].
      * injection Heq as -> ->. split; [lia|]. by rewrite Nat.sub_diag.
      * split; [lia|]. by replace (i - y) with (S (i - S y)) by lia.
    + intros [Hle Hl]. destruct (decide (i = y)) as [->|Hne].
      * left. rewrite Nat.sub_diag in Hl. simpl in Hl. congruence.
      * right. split; [lia|].
        by replace (i - y) with (S (i - S y)) in Hl by lia.
Qed.

(** The test in the source and the test in the design document agree:
    beyond the end of [prevOutput] the lookup yields [undefined], which
    differs from every line. *)
Lemma rowChanged_rowDiffers prev y line :
  rowChanged prev y line = bool_decide (rowDiffers prev (y, line)).
Proof.
  unfold rowChanged, rowDiffers; simpl.
  destruct (decide (prev !! y = Some line)) as [Heq|Hne].
  - rewrite (bool_decide_eq_true_2 _ Heq); simpl. rewrite orb_false_r.
    pose proof (lookup_lt_Some _ _ _ Heq) as Hlt.
    rewrite bool_decide_eq_false_2 by (intros [?|?]; [lia|done]).
    apply Nat.ltb_ge. lia.
  - rewrite (bool_decide_eq_false_2 _ Hne); simpl. rewrite orb_true_r.
    symmetry. apply bool_decide_eq_true_2. by right.
Qed.

Lemma writeRows_spec output y changed w :
  let rows := filter (rowDiffers (prevOutput w)) (indexFrom y output) in
  writeRows y output changed w
  = (changed || negb (bool_decide (rows = [])),
     emitAll (setLineCall <$> rows) w).
Proof.
  revert y changed w. induction output as [|line rest IH]; intros y changed w.
  - simpl. by rewrite orb_false_r.
  - cbn [writeRows indexFrom]. rewrite rowChanged_rowDiffers.
    rewrite filter_cons. destruct (decide (rowDiffers (prevOutput w) (y, line))) as [Hd|Hd].
    + rewrite (bool_decide_eq_true_2 _ Hd). rewrite IH. cbn zeta.
      by rewrite orb_true_r.
    + rewrite (bool_decide_eq_false_2 _ Hd). by rewrite IH.
Qed.

(** The calls of one [write]. *)
Definition writeCalls (prev : list string) (scroll : bool) (output : list string)
  : list Call :=
  match differingRows prev output with
  | [] => []
  | rows => (setLineCall <$> rows)
            ++ (if scroll then [] else [MainSetScrollPerc 100])
            ++ [ScreenRender]
  end.

Lemma write_spec output w :
  write output w = emitAll (writeCalls (prevOutput w) (scrolling w) output) w.
Proof.
  unfold write, writeCalls, differingRows. rewrite writeRows_spec. cbn zeta.
  destruct (filter (rowDiffers (prevOutput w)) (indexFrom 0 output))
    as [|row rows] eqn:Hrows; simpl negb; cbn match.
  - done.
  - rewrite !emitAll_app.
    destruct (sameFields_emitAll (setLineCall <$> row :: rows) w)
      as (_&_&_&_&_&_&_&_&->&_).
    by destruct (scrolling w).
Qed.

Lemma write_calls output w :
  calls (write output w)
  = calls w ++ writeCalls (prevOutput w) (scrolling w) output.
Proof. by rewrite write_spec, calls_emitAll. Qed.

Lemma write_sameFields output w : sameFields w (write output w).
Proof. rewrite write_spec. apply sameFields_emitAll. Qed.

Lemma filter_isSetLine_writeCalls prev scroll output :
  List.filter isSetLine (writeCalls prev scroll output)
  = setLineCall <$> differingRows prev output.
Proof.
  unfold writeCalls.
  assert (Hall : ∀ rows : list (nat * string),
             List.filter isSetLine (setLineCall <$> rows) = setLineCall <$> rows).
  { induction rows as [|row rows IH]; [done|].
    rewrite fmap_cons. cbn [List.filter setLineCall isSetLine]. by f_equal. }
  destruct (differingRows prev output) as [|row rows]; [done|].
  rewrite List.filter_app, Hall.
  destruct scroll; simpl; by rewrite app_nil_r.
Qed.

Lemma elem_of_writeCalls_setLine prev scroll output y line :
  MainSetLine y line ∈ writeCalls prev scroll output
  ↔ (y, line) ∈ differingRows prev output.
Proof.
  unfold writeCalls.
  assert (Hmap : ∀ rows : list (nat * string),
             MainSetLine y line ∈ setLineCall <$> rows ↔ (y, line) ∈ rows).
  { intros rows. rewrite list_elem_of_fmap. split.
    - intros ([y' line'] & Heq & Hin). unfold setLineCall in Heq; simpl in Heq.
      by injection Heq as -> ->.
    - intros Hin. by exists (y, line). }
  destruct (differingRows prev output) as [|row rows] eqn:Hrows.
  - split; intros H; by apply elem_of_nil in H.
  - rewrite !elem_of_app, Hmap. split; [|by left].
    intros [H|[H|H]]; [done| |].
    + destruct scroll; [by apply elem_of_nil in H|].
      apply list_elem_of_singleton in H. discriminate.
    + apply list_elem_of_singleton in H. discriminate.
Qed.

(** C4.  The [setLine] calls of one [write] are, in order, the rows of the
    new output that differ from the previous output, one call per such
    row: their number is the number of differing rows, and row [y] with
    content [line] is written exactly when it is a row of the new output
    that is new or whose content differs from the previous row [y]. *)
Theorem write_diff_minimal (w : Writer) (output : list string) :
  let prev := prevOutput w in
  let new := issued w (write output w) in
  calls (write output w) = calls w ++ new
  ∧ List.filter isSetLine new = setLineCall <$> differingRows prev output
  ∧ length (List.filter isSetLine new) = length (differingRows prev output)
  ∧ ∀ y line,
      MainSetLine y line ∈ new
      ↔ output !! y = Some line ∧ (length prev ≤ y ∨ prev !! y ≠ Some line).
Proof.
  cbv zeta.
  rewrite (issued_app _ _ _ (write_calls output w)).
  split; [apply write_calls|].
  split; [apply filter_isSetLine_writeCalls|].
  split; [by rewrite filter_isSetLine_writeCalls, length_fmap|].
  intros y line. rewrite elem_of_writeCalls_setLine.
  unfold differingRows. rewrite list_elem_of_filter, elem_of_indexFrom.
  unfold rowDiffers; simpl. rewrite Nat.sub_0_r.
  split; [intros [? [_ ?]]; by split | intros [? ?]; repeat split; [done|lia|done]].
Qed.








(** ** The snapshot builder *)

(** The number of lines an entry takes in the accounting of [fullRender]:
    [text.split("\n").length - 1]. *)
Definition lineCount (text : string) : nat := length (split_nl text) - 1.

Lemma lineCount_count_nl text : lineCount text = count_nl text.
Proof. unfold lineCount. rewrite split_nl_length. lia. Qed.

Definition recordLines (r : TerminalEntry.t) : nat :=
  lineCount (TerminalEntry.text r).

Lemma count_nl_join_with {A : Type} (f : A → string) (l : list A) :
  count_nl (join (f <$> l)) = sum_list_with (count_nl ∘ f) l.
Proof.
  induction l as [|x l IH]; [done|].
  rewrite fmap_cons. unfold join in *. cbn [fold_right sum_list_with].
  by rewrite count_nl_append, IH.
Qed.

Lemma sum_list_with_pointwise {A : Type} (f g : A → nat) (l : list A) :
  (∀ x, f x = g x) → sum_list_with f l = sum_list_with g l.
Proof. intros Hfg. induction l as [|x l IH]; simpl; [done|]. by rewrite Hfg, IH. Qed.

Section SnapshotBuilder.
Context (env : Imports).

(** The pieces of one round of the [reduce]. *)
Definition entryFrame (sp : gmap string nat) (entry : LogEntry.t) : string :=
  if decide (LogEntry.status entry = StatusActive)
  then fst (tickSpinner env (LogEntry.key entry) sp) else EmptyString.

Definition entrySpinners (sp : gmap string nat) (entry : LogEntry.t)
  : gmap string nat :=
  if decide (LogEntry.status entry = StatusActive)
  then snd (tickSpinner env (LogEntry.key entry) sp)
  else delete (LogEntry.key entry) sp.

Definition entryCoords (cur : nat) (entry : LogEntry.t) : option Coords :=
  if decide (LogEntry.status entry = StatusActive)
  then Some (String.length (leftPad env entry), cur) else None.

Definition entryText (width : Z) (sp : gmap string nat) (entry : LogEntry.t)
  : string :=
  let str :=
    if LogEntry.fromStdStream entry then renderMsg env entry
    else formatForTerminal env entry in
  let spinnerX := String.length (leftPad env entry) in
  wrapAnsi env
    match entryFrame sp entry with
    | EmptyString => str
    | frame => slice_to spinnerX str +:+ spinnerStyle env frame +:+ " "
               +:+ slice_from spinnerX str
    end (width - 2)%Z.

Definition entryRecords (width : Z) (cur : nat) (sp : gmap string nat)
    (entry : LogEntry.t) : list TerminalEntry.t :=
  match entryText width sp entry with
  | EmptyString => []
  | text => [ {| TerminalEntry.key := LogEntry.key entry;
                 TerminalEntry.text := text;
                 TerminalEntry.lineNumber := cur;
                 TerminalEntry.spinnerCoords := entryCoords cur entry |} ]
  end.

Lemma renderEntry_unfold width acc cur sp entry :
  renderEntry env width (acc, cur, sp) entry
  = (acc ++ entryRecords width cur sp entry,
     cur + lineCount (entryText width sp entry),
     entrySpinners sp entry).
Proof.
  unfold renderEntry, entryRecords, entryText, entryFrame, entrySpinners,
    entryCoords, lineCount.
  destruct (decide (LogEntry.status entry = StatusActive)) as [Hact|Hact].
  - destruct (tickSpinner env (LogEntry.key entry) sp) as [frame sp1]; simpl.
    destruct frame; simpl;
      match goal with |- context [wrapAnsi env ?a ?b] =>
        destruct (wrapAnsi env a b) end; simpl; by rewrite ?app_nil_r.
  - simpl.
    match goal with |- context [wrapAnsi env ?a ?b] =>
      destruct (wrapAnsi env a b) end; simpl; by rewrite ?app_nil_r.
Qed.

(** A record made in this round sits at the current line, and the line
    counter moves on by the line count of what was appended. *)
Lemma entryRecords_lineCount width cur sp entry :
  sum_list_with recordLines (entryRecords width cur sp entry)
  = lineCount (entryText width sp entry).
Proof.
  unfold entryRecords.
  destruct (entryText width sp entry) eqn:Ht; [done|].
  unfold recordLines; simpl. lia.
Qed.

Lemma entryRecords_lineNumber width cur sp entry r :
  r ∈ entryRecords width cur sp entry → TerminalEntry.lineNumber r = cur.
Proof.
  unfold entryRecords. destruct (entryText width sp entry).
  - by intros ?%elem_of_nil.
  - by intros ->%list_elem_of_singleton.
Qed.

(** Line numbers of a list of records are the running sums of the line
    counts, starting from zero. *)
Definition numbered (recs : list TerminalEntry.t) : Prop :=
  ∀ i r, recs !! i = Some r →
    TerminalEntry.lineNumber r
    = sum_list_with recordLines (take i recs).

Lemma numbered_app recs new cur :
  numbered recs →
  cur = sum_list_with recordLines recs →
  length new ≤ 1 →
  (∀ r, r ∈ new → TerminalEntry.lineNumber r = cur) →
  numbered (recs ++ new).
Proof.
  intros Hnum Hcur Hlen Hnew i r Hi.
  destruct (decide (i < length recs)) as [Hlt|Hge].
  - rewrite lookup_app_l in Hi by done.
    rewrite take_app_le by lia. by apply Hnum.
  - rewrite lookup_app_r in Hi by lia.
    destruct new as [|r0 [|r1 new]]; simpl in Hlen; [done| |lia].
    destruct (i - length recs) as [|n] eqn:Hn; simpl in Hi; [|done].
    injection Hi as ->.
    assert (i = length recs) as -> by lia.
    rewrite take_app_length. rewrite <- Hcur. apply Hnew. by left.
Qed.

Lemma renderEntries_numbered width entries acc cur sp :
  numbered acc →
  cur = sum_list_with recordLines acc →
  let '(acc', cur', _) := fold_left (renderEntry env width) entries (acc, cur, sp) in
  numbered acc' ∧ cur' = sum_list_with recordLines acc'.
Proof.
  revert acc cur sp.
  induction entries as [|entry entries IH]; intros acc cur sp Hnum Hcur;
    cbn [fold_left].
  - done.
  - rewrite renderEntry_unfold. apply IH.
    + apply (numbered_app _ _ cur); [done|done| |].
      * unfold entryRecords. destruct (entryText width sp entry); simpl; lia.
      * apply entryRecords_lineNumber.
    + rewrite sum_list_with_app, entryRecords_lineCount. lia.
Qed.

Lemma fullRender_numbered lg w : numbered (fst (fullRender env lg w)).
Proof.
  unfold fullRender.
  pose proof (renderEntries_numbered (mainWidth w)
                (filter (visible (level w)) (getChildEntries lg)) [] 0
                (spinners w)) as H.
  destruct (fold_left _ _ _) as [[acc cur] sp]; simpl.
  apply H; [|done]. intros i r Hi. by rewrite lookup_nil in Hi.
Qed.

(** C2.  In a snapshot built by [fullRender], the line number of the
    record at position [i] is the sum of the line counts of the records
    before it; hence a later record never has a smaller line number, and
    the record right after it starts exactly one line count further (no
    gap).  The line count of a record is the number of lines it
    contributes to the flattened snapshot, [text.split("\n").length - 1],
    that is, the number of its line breaks. *)
Theorem fullRender_lineNumbers
    (lg : Logger.t) (w : Writer) (i j : nat) (r r' : TerminalEntry.t)
    (Hi : fst (fullRender env lg w) !! i = Some r)
    (Hj : fst (fullRender env lg w) !! j = Some r')
    (Hij : i ≤ j) :
  let recs := fst (fullRender env lg w) in
  TerminalEntry.lineNumber r
  = sum_list_with recordLines (take i recs)
  ∧ TerminalEntry.lineNumber r
    = count_nl (join (TerminalEntry.text <$> take i recs))
  ∧ TerminalEntry.lineNumber r ≤ TerminalEntry.lineNumber r'
  ∧ (j = S i →
     TerminalEntry.lineNumber r'
     = TerminalEntry.lineNumber r + recordLines r).
Proof.
  cbv zeta. pose proof (fullRender_numbered lg w) as Hnum.
  set (recs := fst (fullRender env lg w)) in *.
  pose proof (Hnum i r Hi) as Hri. pose proof (Hnum j r' Hj) as Hrj.
  assert (Hsplit : take j recs = take i recs ++ take (j - i) (drop i recs)).
  { rewrite <- (take_drop i (take j recs)) at 1.
    rewrite take_take, Nat.min_l by lia. by rewrite skipn_firstn_comm. }
  split; [done|]. split; [|split].
  - rewrite Hri, count_nl_join_with.
    apply sum_list_with_pointwise. intros x. apply lineCount_count_nl.
  - rewrite Hri, Hrj, Hsplit, sum_list_with_app. lia.
  - intros ->. rewrite Hrj, Hri, Hsplit, sum_list_with_app.
    replace (S i - i) with 1 by lia.
    rewrite (drop_S _ _ _ Hi). simpl. lia.
Qed.

(** *** What the builder does to the writer *)

Lemma fullRender_snd lg w :
  snd (fullRender env lg w)
  = with_spinners (spinners (snd (fullRender env lg w))) w.
Proof.
  unfold fullRender. by destruct (fold_left _ _ _) as [[acc cur] sp].
Qed.

Lemma fullRender_sameFields lg w :
  let w' := snd (fullRender env lg w) in
  level w' = level w ∧ mainWidth w' = mainWidth w ∧ calls w' = calls w
  ∧ prevOutput w' = prevOutput w ∧ scrolling w' = scrolling w
  ∧ mainLines w' = mainLines w ∧ intervalID w' = intervalID w
  ∧ lastInterceptAt w' = lastInterceptAt w ∧ errorMessages w' = errorMessages w
  ∧ updatePending w' = updatePending w ∧ timeouts w' = timeouts w
  ∧ initialized w' = initialized w ∧ logger w' = logger w.
Proof. cbv zeta. rewrite fullRender_snd. by repeat split. Qed.

(** *** Entries that are not active *)

Definition inactive (entry : LogEntry.t) : Prop :=
  LogEntry.status entry ≠ StatusActive.

Lemma entryRecords_inactive width cur sp sp' entry :
  inactive entry →
  entryRecords width cur sp entry = entryRecords width cur sp' entry
  ∧ entryText width sp entry = entryText width sp' entry.
Proof.
  intros Hin. unfold entryRecords, entryText, entryFrame.
  by destruct (decide (LogEntry.status entry = StatusActive)).
Qed.

Lemma renderEntries_inactive width entries acc cur sp sp' :
  Forall inactive entries →
  fst (fold_left (renderEntry env width) entries (acc, cur, sp))
  = fst (fold_left (renderEntry env width) entries (acc, cur, sp')).
Proof.
  intros Hall. revert acc cur sp sp'.
  induction Hall as [|entry entries Hin _ IH]; intros acc cur sp sp';
    cbn [fold_left]; [done|].
  rewrite !renderEntry_unfold.
  destruct (entryRecords_inactive width cur sp sp' entry Hin) as [-> ->].
  apply IH.
Qed.

Lemma fullRender_inactive lg w w' :
  level w' = level w → mainWidth w' = mainWidth w →
  Forall inactive (filter (visible (level w)) (getChildEntries lg)) →
  fst (fullRender env lg w') = fst (fullRender env lg w).
Proof.
  intros Hl Hw Hall. unfold fullRender. rewrite Hl, Hw.
  pose proof (renderEntries_inactive (mainWidth w) _ [] 0
                (spinners w') (spinners w) Hall) as H.
  destruct (fold_left _ _ ([], 0, spinners w')) as [[acc1 cur1] sp1].
  destruct (fold_left _ _ ([], 0, spinners w)) as [[acc2 cur2] sp2].
  simpl in *. congruence.
Qed.

(** *** The spinner map *)

Lemma entrySpinners_other sp entry k :
  k ≠ LogEntry.key entry → entrySpinners sp entry !! k = sp !! k.
Proof.
  intros Hne. unfold entrySpinners, tickSpinner.
destruct (nextFrame env _) as [i' frame].
destruct (decide (LogEntry.status entry = StatusActive)); simpl.
  - by rewrite lookup_insert_ne.
  - by rewrite lookup_delete_ne.
Qed.

Lemma renderEntries_spinners_other width entries acc cur sp k :
  k ∉ LogEntry.key <$> entries →
  snd (fold_left (renderEntry env width) entries (acc, cur, sp)) !! k = sp !! k.
Proof.
  revert acc cur sp.
  induction entries as [|entry entries IH]; intros acc cur sp Hk;
    cbn [fold_left]; [done|].
  rewrite fmap_cons, not_elem_of_cons in Hk. destruct Hk as [Hne Hk].
  rewrite renderEntry_unfold, IH by done.
  by apply entrySpinners_other.
Qed.

Lemma renderEntries_forgets width entries acc cur sp entry :
  NoDup (LogEntry.key <$> entries) → entry ∈ entries → inactive entry →
  snd (fold_left (renderEntry env width) entries (acc, cur, sp))
    !! LogEntry.key entry = None.
Proof.
  revert acc cur sp.
  induction entries as [|e entries IH]; intros acc cur sp Hnd Hin Hst;
    cbn [fold_left].
  - by apply elem_of_nil in Hin.
  - rewrite fmap_cons, NoDup_cons in Hnd. destruct Hnd as [Hfresh Hnd].
    rewrite renderEntry_unfold.
    apply elem_of_cons in Hin as [->|Hin].
    + rewrite renderEntries_spinners_other by done.
      unfold entrySpinners.
      destruct (decide (LogEntry.status e = StatusActive)); [done|].
      apply lookup_delete_eq.
    + by apply IH.
Qed.

Lemma renderEntries_records width entries acc cur sp r :
  r ∈ fst (fst (fold_left (renderEntry env width) entries (acc, cur, sp))) →
  r ∈ acc
  ∨ ∃ entry, entry ∈ entries
             ∧ TerminalEntry.key r = LogEntry.key entry
             ∧ (is_Some (TerminalEntry.spinnerCoords r)
                → LogEntry.status entry = StatusActive).
Proof.
  revert acc cur sp.
  induction entries as [|e entries IH]; intros acc cur sp Hr;
    cbn [fold_left] in Hr; [by left|].
  rewrite renderEntry_unfold in Hr.
  apply IH in Hr as [Hr|(entry & Hin & Hk & Hc)].
  - apply elem_of_app in Hr as [Hr|Hr]; [by left|]. right. exists e.
    split; [by left|].
    unfold entryRecords in Hr. destruct (entryText width sp e).
    + by apply elem_of_nil in Hr.
    + apply list_elem_of_singleton in Hr as ->. simpl. split; [done|].
      unfold entryCoords.
      destruct (decide (LogEntry.status e = StatusActive)); [done|].
      by intros [? ?].
  - right. exists entry. split; [by right|done].
Qed.

Lemma unique_key (entries : list LogEntry.t) (a b : LogEntry.t) :
  NoDup (LogEntry.key <$> entries) → a ∈ entries → b ∈ entries →
  LogEntry.key a = LogEntry.key b → a = b.
Proof.
  induction entries as [|e entries IH]; intros Hnd Ha Hb Hk.
  - by apply elem_of_nil in Ha.
  - rewrite fmap_cons, NoDup_cons in Hnd. destruct Hnd as [Hfresh Hnd].
    apply elem_of_cons in Ha as [->|Ha]; apply elem_of_cons in Hb as [->|Hb].
    + done.
    + exfalso. apply Hfresh. rewrite Hk. by apply list_elem_of_fmap_2.
    + exfalso. apply Hfresh. rewrite <- Hk. by apply list_elem_of_fmap_2.
    + by apply IH.
Qed.

Lemma NoDup_keys_filter (P : LogEntry.t → Prop) `{!∀ x, Decision (P x)}
    (entries : list LogEntry.t) :
  NoDup (LogEntry.key <$> entries) → NoDup (LogEntry.key <$> filter P entries).
Proof.
  intros Hnd. eapply sublist_NoDup; [exact Hnd|].
  apply fmap_sublist, sublist_filter.
Qed.

End SnapshotBuilder.

(** ** Applying a snapshot *)

Lemma stopLoop_eq w : stopLoop w = with_intervalID None w.
Proof. unfold stopLoop. destruct w as [? ? [es|] ? ? ? ? ? ? ? ? ? ? ?]; reflexivity. Qed.

(** The loop that [render] leaves behind. *)
Definition loopFor (terminalEntries : list TerminalEntry.t)
  : option (list TerminalEntry.t) :=
  match filter hasSpinner terminalEntries with
  | [] => None
  | entries => Some entries
  end.

Lemma render_spec terminalEntries didWrite w :
  render terminalEntries didWrite w
  = with_intervalID (loopFor terminalEntries)
      (with_prevOutput (flatten terminalEntries)
         (if didWrite then w else write (flatten terminalEntries) w)).
Proof.
  unfold render, loopFor, startLoop. rewrite !stopLoop_eq.
  by destruct (filter hasSpinner terminalEntries).
Qed.

Lemma render_calls terminalEntries didWrite w :
  calls (render terminalEntries didWrite w)
  = calls w ++ (if didWrite then []
                else writeCalls (prevOutput w) (scrolling w) (flatten terminalEntries)).
Proof.
  rewrite render_spec. destruct didWrite; simpl.
  - by rewrite app_nil_r.
  - apply write_calls.
Qed.

Lemma render_fields terminalEntries didWrite w :
  let w' := render terminalEntries didWrite w in
  level w' = level w ∧ mainWidth w' = mainWidth w ∧ spinners w' = spinners w
  ∧ prevOutput w' = flatten terminalEntries ∧ scrolling w' = scrolling w
  ∧ intervalID w' = loopFor terminalEntries
  ∧ lastInterceptAt w' = lastInterceptAt w ∧ errorMessages w' = errorMessages w
  ∧ updatePending w' = updatePending w ∧ timeouts w' = timeouts w
  ∧ initialized w' = initialized w ∧ logger w' = logger w.
Proof.
  cbv zeta. rewrite render_spec. destruct didWrite; simpl; [by repeat split|].
  destruct (write_sameFields (flatten terminalEntries) w)
    as (?&?&?&?&?&?&?&?&?&?&?&?).
  by repeat split.
Qed.

Lemma differingRows_same (output : list string) : differingRows output output = [].
Proof.
  unfold differingRows.
  destruct (filter (rowDiffers output) (indexFrom 0 output)) as [|row rows] eqn:Hf;
    [done|].
  assert (Hin : row ∈ filter (rowDiffers output) (indexFrom 0 output))
    by (rewrite Hf; by left).
  destruct row as [y line].
  apply list_elem_of_filter in Hin as [Hd Hin].
  apply elem_of_indexFrom in Hin as [_ Hl]. rewrite Nat.sub_0_r in Hl.
  destruct Hd as [Hd|Hd]; simpl in Hd.
  - apply lookup_lt_Some in Hl. lia.
  - done.
Qed.

Section Rendering.
Context (env : Imports).

Lemma renderGraph_unfold lg w :
  renderGraph env lg w
  = render (fst (fullRender env lg w)) false (snd (fullRender env lg w)).
Proof. unfold renderGraph. by destruct (fullRender env lg w). Qed.

(** C5, amended.  When no entry that passes the severity filter is
    active, building and applying the snapshot of the same graph a second
    time issues no call at all: no [setLine], no repaint, and the canvas is
    what it was. *)
Theorem renderGraph_twice_silent (lg : Logger.t) (w : Writer)
    (Hinactive : ∀ entry, entry ∈ getChildEntries lg →
                          visible (level w) entry → inactive entry) :
  let w1 := renderGraph env lg w in
  let w2 := renderGraph env lg w1 in
  issued w1 w2 = []
  ∧ calls w2 = calls w1
  ∧ mainLines w2 = mainLines w1
  ∧ prevOutput w2 = prevOutput w1.
Proof.
  cbv zeta.
  assert (Hall : Forall inactive (filter (visible (level w)) (getChildEntries lg))).
  { apply Forall_forall. intros entry [Hv Hin]%list_elem_of_filter. by apply Hinactive. }
  set (w1 := renderGraph env lg w).
  assert (Hw1 : level w1 = level w ∧ mainWidth w1 = mainWidth w
                ∧ prevOutput w1 = flatten (fst (fullRender env lg w))).
  { unfold w1. rewrite renderGraph_unfold.
    destruct (render_fields (fst (fullRender env lg w)) false
                (snd (fullRender env lg w))) as (Hl&Hm&_&Hp&_).
    destruct (fullRender_sameFields env lg w) as (Hl'&Hm'&_).
    rewrite Hl, Hm, Hp. by repeat split. }
  destruct Hw1 as (Hl & Hm & Hp).
  assert (Hsame : fst (fullRender env lg w1) = fst (fullRender env lg w))
    by (by apply fullRender_inactive).
  destruct (fullRender_sameFields env lg w1) as (_&_&Hc&Hp'&_&Hml&_).
  assert (Hcalls : calls (renderGraph env lg w1) = calls w1).
  { rewrite renderGraph_unfold, render_calls, Hsame, Hp', Hp.
    unfold writeCalls. rewrite differingRows_same. by rewrite app_nil_r. }
  split; [apply issued_app; by rewrite Hcalls, app_nil_r|].
  split; [done|]. split.
  - rewrite renderGraph_unfold, render_spec; simpl.
    rewrite write_spec, mainLines_emitAll, Hsame, Hp', Hp.
    unfold writeCalls. rewrite differingRows_same. simpl. exact Hml.
  - rewrite renderGraph_unfold.
    destruct (render_fields (fst (fullRender env lg w1)) false
                (snd (fullRender env lg w1))) as (_&_&_&->&_).
    by rewrite Hsame, Hp.
Qed.

(** C8, amended.  Keys are unique in the graph.  An entry that passes the
    severity filter and is not active has, after the snapshot is built, no
    generator under its key in [spinners], and no record under its key
    carries spinner coordinates.  Applying the snapshot leaves the spinner
    loop running exactly when some record of the snapshot carries spinner
    coordinates, and then on exactly those records. *)
Theorem fullRender_spinner_lifecycle
    (lg : Logger.t) (w : Writer) (entry : LogEntry.t) (didWrite : bool)
    (Hunique : NoDup (LogEntry.key <$> getChildEntries lg))
    (Hentry : entry ∈ getChildEntries lg)
    (Hvisible : visible (level w) entry)
    (Hinactive : inactive entry) :
  let recs := fst (fullRender env lg w) in
  let w1 := snd (fullRender env lg w) in
  let w2 := render recs didWrite w1 in
  spinners w1 !! LogEntry.key entry = None
  ∧ spinners w2 !! LogEntry.key entry = None
  ∧ (∀ r, r ∈ recs → TerminalEntry.key r = LogEntry.key entry →
          TerminalEntry.spinnerCoords r = None)
  ∧ (is_Some (intervalID w2) ↔ ∃ r, r ∈ recs ∧ hasSpinner r)
  ∧ (∀ entries, intervalID w2 = Some entries → entries = filter hasSpinner recs).
Proof.
  cbv zeta.
  assert (Hnd : NoDup (LogEntry.key <$> filter (visible (level w)) (getChildEntries lg)))
    by (by apply NoDup_keys_filter).
  assert (Hin : entry ∈ filter (visible (level w)) (getChildEntries lg))
    by (by apply list_elem_of_filter).
  assert (Hsp : spinners (snd (fullRender env lg w)) !! LogEntry.key entry = None).
  { unfold fullRender.
    pose proof (renderEntries_forgets env (mainWidth w) _ [] 0 (spinners w)
                  entry Hnd Hin Hinactive) as H.
    by destruct (fold_left _ _ _) as [[acc cur] sp]. }
  destruct (render_fields (fst (fullRender env lg w)) didWrite
              (snd (fullRender env lg w))) as (_&_&Hs&_&_&Hloop&_).
  split; [done|]. split; [by rewrite Hs|]. split; [|split].
  - intros r Hr Hk.
    assert (Hr' : r ∈ [] ∨ ∃ e, e ∈ filter (visible (level w)) (getChildEntries lg)
                        ∧ TerminalEntry.key r = LogEntry.key e
                        ∧ (is_Some (TerminalEntry.spinnerCoords r)
                           → LogEntry.status e = StatusActive)).
    { apply (renderEntries_records env (mainWidth w) _ [] 0 (spinners w)).
      unfold fullRender in Hr. by destruct (fold_left _ _ _) as [[acc cur] sp]. }
    destruct Hr' as [Hr'|(e & He & Hke & Hc)]; [by apply elem_of_nil in Hr'|].
    assert (e = entry) as -> by (apply (unique_key _ _ _ Hnd He Hin); congruence).
    destruct (TerminalEntry.spinnerCoords r) eqn:Hco; [|done].
    exfalso. apply Hinactive, Hc. by eexists.
  - rewrite Hloop. unfold loopFor.
    destruct (filter hasSpinner (fst (fullRender env lg w))) as [|r rs] eqn:Hf.
    + split; [by intros [? ?]|]. intros (r & Hr & Hh). exfalso.
      assert (Hrin : r ∈ filter hasSpinner (fst (fullRender env lg w)))
        by (by apply list_elem_of_filter).
      rewrite Hf in Hrin. by apply elem_of_nil in Hrin.
    + split; [|by eexists]. intros _. exists r.
      assert (Hrin : r ∈ filter hasSpinner (fst (fullRender env lg w)))
        by (rewrite Hf; by left).
      apply list_elem_of_filter in Hrin as [? ?]. by split.
  - intros entries. rewrite Hloop. unfold loopFor.
    destruct (filter hasSpinner (fst (fullRender env lg w))); [done|].
    by intros [= <-].
Qed.

(** *** The throttle *)

Lemma renderNow_fields log lg didWrite w :
  let w' := renderNow env log lg didWrite w in
  lastInterceptAt w' = lastInterceptAt w ∧ updatePending w' = updatePending w
  ∧ timeouts w' = timeouts w ∧ errorMessages w' = errorMessages w
  ∧ level w' = level w ∧ logger w' = logger w.
Proof.
  cbv zeta. unfold renderNow.
  destruct (fullRender_sameFields env lg w)
    as (Hl&_&_&_&_&_&_&Hi&He&Hu&Ht&_&Hlg).
  destruct (fullRender env lg w) as [recs w1]; simpl in *.
  destruct (List.find _ recs); [|by repeat split].
  destruct (render_fields recs didWrite w1) as (->&_&_&_&_&_&->&->&->&->&_&->).
  by repeat split.
Qed.

Lemma renderNow_calls log lg w :
  calls (renderNow env log lg true w) = calls w
  ∧ mainLines (renderNow env log lg true w) = mainLines w.
Proof.
  unfold renderNow.
  destruct (fullRender_sameFields env lg w) as (_&_&Hc&_&_&Hm&_).
  destruct (fullRender env lg w) as [recs w1]; simpl in *.
  destruct (List.find _ recs); [|done].
  rewrite render_spec; simpl. by split.
Qed.

(** A catch-up call issues no call at all: the canvas is not written. *)
Lemma handleGraphChange_catchup_silent now log lg w :
  calls (handleGraphChange env now log lg true w) = calls w
  ∧ mainLines (handleGraphChange env now log lg true w) = mainLines w.
Proof.
  unfold handleGraphChange. rewrite andb_false_r.
  by destruct (renderNow_calls log lg (with_logger (Some lg) (with_updatePending false w))).
Qed.

(** The decision of a call, read off the state it leaves: [updatePending]
    is set exactly when the call was throttled. *)
Definition deferred (now : Z) (log : LogEntry.t) (didWrite : bool) (w : Writer)
  : bool :=
  LogEntry.fromStdStream log && negb didWrite && throttleProcessing now w.

Lemma handleGraphChange_updatePending now log lg didWrite w :
  updatePending (handleGraphChange env now log lg didWrite w)
  = deferred now log didWrite w.
Proof.
  unfold handleGraphChange, deferred.
  destruct (LogEntry.fromStdStream log && negb didWrite); simpl.
  - change (throttleProcessing now (with_logger (Some lg) (with_updatePending false w)))
      with (throttleProcessing now w).
    destruct (throttleProcessing now w); [done|].
    by destruct (renderNow_fields log lg didWrite
                   (with_lastInterceptAt (Some now)
                      (with_logger (Some lg) (with_updatePending false w))))
      as (_&->&_).
  - by destruct (renderNow_fields log lg didWrite
                   (with_logger (Some lg) (with_updatePending false w)))
      as (_&->&_).
Qed.

(** C7, amended.  A notification from a live stream that is not a
    catch-up call sets [lastInterceptAt] to the current time whatever the
    decision, render now or deferred; every other call leaves it as it
    was. *)
Theorem handleGraphChange_lastInterceptAt
    (now : Z) (log : LogEntry.t) (lg : Logger.t) (didWrite : bool) (w : Writer) :
  lastInterceptAt (handleGraphChange env now log lg didWrite w)
  = if LogEntry.fromStdStream log && negb didWrite
    then Some now else lastInterceptAt w.
Proof.
  unfold handleGraphChange.
  destruct (LogEntry.fromStdStream log && negb didWrite).
  - destruct (throttleProcessing _ _).
    + rewrite stopLoop_eq. reflexivity.
    + by destruct (renderNow_fields log lg didWrite
                     (with_lastInterceptAt (Some now)
                        (with_logger (Some lg) (with_updatePending false w))))
        as (->&_).
  - by destruct (renderNow_fields log lg didWrite
                   (with_logger (Some lg) (with_updatePending false w)))
      as (->&_).
Qed.

(** *** Stopping and cleaning up *)

Lemma cleanup_spec w :
  cleanup w
  = if initialized w then
      Some (with_errorMessages []
              (emitAll ([ScreenDestroy; CursorShow] ++ (StdoutWrite <$> errorMessages w)) w))
    else None.
Proof.
  unfold cleanup. destruct (initialized w); [|done].
  do 2 f_equal. rewrite emitAll_app. simpl.
  generalize (emit CursorShow (emit ScreenDestroy w)).
  induction (errorMessages w) as [|line lines IH]; intros w'; simpl; [done|].
  apply IH.
Qed.


(** C9, amended.  [stop] stops the spinner loop and does nothing else: it
    issues no call, and the buffered error messages stay buffered.  It is
    [cleanup], bound to the quit key, that releases the canvas and then
    writes the buffered error messages to the standard output, oldest
    first, and empties the buffer.  [cleanup] returns exactly on a writer
    that has been initialized; on one that never was it throws before it
    has done anything. *)
Theorem stop_and_cleanup (w : Writer) :
  (stop w = with_intervalID None w
   ∧ intervalID (stop w) = None
   ∧ calls (stop w) = calls w
   ∧ errorMessages (stop w) = errorMessages w)
  ∧ (is_Some (cleanup w) ↔ initialized w = true)
  ∧ match cleanup w with
    | Some w' =>
        initialized w = true
        ∧ calls w'
          = calls w ++ [ScreenDestroy; CursorShow] ++ (StdoutWrite <$> errorMessages w)
        ∧ errorMessages w' = []
        ∧ intervalID w' = intervalID w
    | None => initialized w = false
    end.
Proof.
  split; [|split].
  - unfold stop. rewrite stopLoop_eq. by repeat split.
  - rewrite cleanup_spec. destruct (initialized w).
    + split; [done|]. by eexists.
    + split; [by intros [? ?]|done].
  - rewrite cleanup_spec. destruct (initialized w); [|done].
    change (calls (with_errorMessages [] ?x)) with (calls x).
    change (intervalID (with_errorMessages [] ?x)) with (intervalID x).
    rewrite calls_emitAll.
    split; [done|]. split; [done|]. split; [done|].
    by destruct (sameFields_emitAll
                   ([ScreenDestroy; CursorShow] ++ (StdoutWrite <$> errorMessages w)) w)
      as (_&_&->&_).
Qed.


(** *** The spinner loop never runs on nothing *)

Definition loopInv (w : Writer) : Prop :=
  ∀ entries, intervalID w = Some entries →
             entries ≠ [] ∧ Forall hasSpinner entries.

Lemma loopFor_inv recs entries :
  loopFor recs = Some entries → entries ≠ [] ∧ Forall hasSpinner entries.
Proof.
  unfold loopFor.
  destruct (filter hasSpinner recs) as [|r rs] eqn:Hf; [done|].
  intros [= <-]. split; [done|]. rewrite <- Hf.
  apply Forall_forall. by intros x [? ?]%list_elem_of_filter.
Qed.

Lemma renderNow_loopInv log lg didWrite w :
  loopInv w → loopInv (renderNow env log lg didWrite w).
Proof.
  intros Hinv. unfold renderNow.
  destruct (fullRender_sameFields env lg w) as (_&_&_&_&_&_&Hi&_).
  destruct (fullRender env lg w) as [recs w1]; simpl in *.
  destruct (List.find _ recs).
  - intros entries. destruct (render_fields recs didWrite w1) as (_&_&_&_&_&->&_).
    apply loopFor_inv.
  - intros entries. rewrite Hi. apply Hinv.
Qed.

Lemma handleGraphChange_loopInv now log lg didWrite w :
  loopInv w → loopInv (handleGraphChange env now log lg didWrite w).
Proof.
  intros Hinv. unfold handleGraphChange.
  destruct (LogEntry.fromStdStream log && negb didWrite).
  - destruct (throttleProcessing _ _).
    + rewrite stopLoop_eq. by intros entries.
    + by apply renderNow_loopInv.
  - by apply renderNow_loopInv.
Qed.

Lemma runTimeouts_loopInv t lg w : loopInv w → loopInv (runTimeouts env t lg w).
Proof.
  unfold runTimeouts. intros Hinv.
  assert (Hstart : loopInv
            (with_timeouts (List.filter (λ p, negb (p.1 <=? t)%Z) (timeouts w)) w))
    by exact Hinv.
  revert Hstart. generalize (with_timeouts
    (List.filter (λ p, negb (p.1 <=? t)%Z) (timeouts w)) w).
  induction (List.filter (λ p, (p.1 <=? t)%Z) (timeouts w)) as [|p due IH];
    intros w' Hw'; simpl; [done|].
  apply IH. unfold fireTimeout.
  destruct (updatePending w'); [by apply handleGraphChange_loopInv|done].
Qed.

Lemma spin_intervalID entries w : intervalID (spin env entries w) = intervalID w.
Proof.
  unfold spin. simpl. revert w.
  induction entries as [|e entries IH]; intros w; simpl; [done|].
  rewrite IH. unfold spinEntry.
  destruct (TerminalEntry.spinnerCoords e) as [[x y]|]; [|done].
  by destruct (tickSpinner env (TerminalEntry.key e) (spinners w)).
Qed.

Lemma step_loopInv st ev : loopInv (fst st) → loopInv (fst (step env st ev)).
Proof.
  destruct st as [w lg]; simpl. intros Hinv.
  pose proof (runTimeouts_loopInv (eventTime ev) lg w Hinv) as H1.
  destruct ev; simpl.
  - unfold onGraphChange. apply handleGraphChange_loopInv.
    match goal with |- loopInv (if initialized ?x then _ else _) =>
      assert (Hx : loopInv x) end.
    { destruct (_ =? _)%nat; [|done].
      destruct (basicRender env entry lg0) as [[|c out]|]; done. }
    destruct (initialized _); done.
  - unfold changeLevel; simpl.
    destruct (logger _); [|done]. destruct (initialized _); [|done].
    rewrite renderGraph_unfold. intros entries.
    match goal with |- intervalID (render ?r ?d ?x) = _ → _ =>
      destruct (render_fields r d x) as (_&_&_&_&_&->&_) end.
    apply loopFor_inv.
  - destruct (intervalID _) eqn:Hi; [|done].
    intros entries. rewrite spin_intervalID. apply H1.
  - unfold stop. rewrite stopLoop_eq. by intros entries.
    - rewrite cleanup_spec. destruct (initialized _); [|done].
    intros entries. cbn [default from_option id].
    change (intervalID (with_errorMessages [] ?x)) with (intervalID x).
    match goal with |- intervalID (emitAll ?cs ?x) = _ → _ =>
      destruct (sameFields_emitAll cs x) as (_&_&->&_) end.
    apply H1.
  - done.
Qed.


(** Whatever reaches the writer, the spinner loop runs only on a
    non-empty set of records, all of which carry spinner coordinates. *)
Lemma run_loopInv events st : loopInv (fst st) → loopInv (fst (run env events st)).
Proof.
  unfold run. revert st.
  induction events as [|ev events IH]; intros st Hinv; simpl; [done|].
  by apply IH, step_loopInv.
Qed.

End Rendering.

(** ** Scenarios

    Concrete runs with the [plain] imports on a terminal 80 columns
    wide and a writer at level 2. *)

Definition nl : string := String newline EmptyString.

Definition noLogger : Logger.t := Logger.mk [].

(** *** A burst from a live stream *)

Definition out1 : LogEntry.t :=
  LogEntry.mk "1" 2 StatusDone true 0 ("out1" +:+ nl) [].
Definition out2 : LogEntry.t :=
  LogEntry.mk "2" 2 StatusDone true 0 ("out2" +:+ nl) [].
Definition summary : LogEntry.t :=
  LogEntry.mk "3" 2 StatusDone false 0 "done" [].

(** The first line of output arrives at time 1000 and is rendered.  The
    second arrives 100 ms later and is throttled; its catch-up call runs
    when the timeout fires at 1700.  Much later an ordinary entry is
    added. *)
Definition burst : list Event :=
  [ GraphChange 1000 out1 (Logger.mk [out1]);
    GraphChange 1100 out2 (Logger.mk [out1; out2]);
    Idle 1700 ].

Definition afterBurst : Writer * Logger.t :=
  run plain burst (newWriter 2 80, noLogger).

Definition afterSummary : Writer * Logger.t :=
  run plain [GraphChange 5000 summary (Logger.mk [out1; out2; summary])] afterBurst.

(** C1.  The catch-up call of the throttled notification has run (no
    update is pending, no timeout is left), and it has recorded the line
    "out2" in [prevOutput], but no [setLine] call has carried it: the canvas
    still shows the first line only.  Because [prevOutput] claims the line
    is on the canvas, the next render does not write it either: after the
    summary entry is rendered, row 1 of the canvas is blank where
    [prevOutput] says "out2". *)
Theorem catchup_render_skips_write :
  updatePending (fst afterBurst) = false
  ∧ timeouts (fst afterBurst) = []
  ∧ prevOutput (fst afterBurst) = ["out1"; "out2"; ""]
  ∧ mainLines (fst afterBurst) = ["out1"; ""]
  ∧ List.filter isSetLine (calls (fst afterBurst))
    = [MainSetLine 0 "out1"; MainSetLine 1 ""]
  ∧ prevOutput (fst afterSummary) = ["out1"; "out2"; "done"; ""]
  ∧ mainLines (fst afterSummary) = ["out1"; ""; "done"; ""]
  ∧ List.filter isSetLine (calls (fst afterSummary))
    = [MainSetLine 0 "out1"; MainSetLine 1 ""; MainSetLine 2 "done"; MainSetLine 3 ""].
Proof. vm_compute. by repeat split. Qed.

(** C7 as stated fails: a throttled notification moves [lastInterceptAt]. *)
Lemma throttled_call_moves_lastInterceptAt :
  let w := fst (run plain [GraphChange 1000 out1 (Logger.mk [out1])]
                  (newWriter 2 80, noLogger)) in
  let w' := handleGraphChange plain 1100 out2 (Logger.mk [out1; out2]) false w in
  deferred 1100 out2 false w = true
  ∧ updatePending w' = true
  ∧ calls w' = calls w
  ∧ lastInterceptAt w = Some 1000%Z
  ∧ lastInterceptAt w' = Some 1100%Z
  ∧ lastInterceptAt w' ≠ lastInterceptAt w.
Proof. vm_compute. by repeat split. Qed.

(** *** A spinner *)

Definition building : LogEntry.t :=
  LogEntry.mk "a" 2 StatusActive false 0 "building" [].
Definition built : LogEntry.t :=
  LogEntry.mk "a" 2 StatusDone false 0 "building" [].

(** C5 as stated fails: with an active entry on screen, the second
    rendering of the same graph rewrites its row, because building the
    snapshot advances the spinner. *)
Lemma second_render_rewrites_spinner_row :
  let w := init (newWriter 2 80) in
  let w1 := renderGraph plain (Logger.mk [building]) w in
  let w2 := renderGraph plain (Logger.mk [building]) w1 in
  issued w1 w2
  = [MainSetLine 0 "| building"; MainSetScrollPerc 100; ScreenRender]
  ∧ List.filter isSetLine (issued w1 w2) ≠ [].
Proof. vm_compute. by split. Qed.

(** C8 as stated fails: the entry is rendered while active, the threshold
    is then lowered below its level, and it becomes done.  The snapshot
    built for that change filters the entry out, and its generator stays in
    [spinners]. *)
Lemma hidden_entry_keeps_its_spinner :
  let w := fst (run plain [ GraphChange 1000 building (Logger.mk [building]);
                            ChangeLevel 2000 1;
                            GraphChange 3000 built (Logger.mk [built]) ]
                  (newWriter 2 80, noLogger)) in
  level w = 1
  ∧ spinners w !! "a" = Some 1
  ∧ spinners (snd (fullRender plain (Logger.mk [built]) w)) !! "a" = Some 1
  ∧ spinners (snd (fullRender plain (Logger.mk [built]) w)) !! "a" ≠ None.
Proof. vm_compute. by repeat split. Qed.

(** *** Stopping *)

Definition failure : LogEntry.t :=
  LogEntry.mk "e" 0 StatusError false 0 "boom" [].

(** C9 as stated fails: after [stop] the error message is still buffered,
    nothing was written to the standard output, the screen was not
    destroyed, and a later notification is rendered as usual. *)
Lemma stop_neither_flushes_nor_releases :
  let stopped := run plain [ GraphChange 1000 failure (Logger.mk [failure]);
                             Stop 2000 ]
                   (newWriter 2 80, noLogger) in
  let later := run plain [GraphChange 3000 summary (Logger.mk [failure; summary])]
                 stopped in
  errorMessages (fst stopped) = ["boom" +:+ nl]
  ∧ calls (fst stopped)
    = [ ScreenRender; MainSetLine 0 "boom"; MainSetLine 1 "";
        MainSetScrollPerc 100; ScreenRender ]
  ∧ (ScreenDestroy ∉ calls (fst stopped))
  ∧ (StdoutWrite ("boom" +:+ nl) ∉ calls (fst stopped))
  ∧ issued (fst stopped) (fst later)
    = [ MainSetLine 1 "done"; MainSetLine 2 ""; MainSetScrollPerc 100; ScreenRender ].
Proof.
  vm_compute. repeat split.
  - intros H. repeat (apply elem_of_cons in H as [H|H]; [discriminate|]).
    by apply elem_of_nil in H.
  - intros H. repeat (apply elem_of_cons in H as [H|H]; [discriminate|]).
    by apply elem_of_nil in H.
Qed.

(** After the run above, [cleanup] releases the screen and writes the
    message out; on a writer that has seen no notification it throws, and
    the writer is as it was. *)
Example cleanup_scenario :
  let stopped := run plain [ GraphChange 1000 failure (Logger.mk [failure]);
                             Stop 2000 ]
                   (newWriter 2 80, noLogger) in
  (issued (fst stopped) <$> cleanup (fst stopped))
  = Some [ScreenDestroy; CursorShow; StdoutWrite ("boom" +:+ nl)]
  ∧ (errorMessages <$> cleanup (fst stopped)) = Some []
  ∧ cleanup (newWriter 2 80) = None
  ∧ run plain [Cleanup 1000] (newWriter 2 80, noLogger) = (newWriter 2 80, noLogger).
Proof. vm_compute. by repeat split. Qed.

(** The scenario of the design document: an active entry yields one record
    with spinner coordinates; once it is done and the snapshot is rebuilt,
    its record has none and [spinners] no longer holds its key. *)
Example spinner_scenario :
  let w := init (newWriter 2 80) in
  let '(recs1, w1) := fullRender plain (Logger.mk [building]) w in
  let '(recs2, w2) := fullRender plain (Logger.mk [built]) w1 in
  TerminalEntry.spinnerCoords <$> recs1 = [Some (0, 0)]
  ∧ spinners w1 !! "a" = Some 1
  ∧ TerminalEntry.spinnerCoords <$> recs2 = [None]
  ∧ spinners w2 !! "a" = None.
Proof. vm_compute. by repeat split. Qed.

(** Three rows on screen, four in the new output, of which the second
    differs and the fourth is new: two [setLine] calls. *)
Example write_two_rows :
  let w := with_prevOutput ["a"; "b"; "c"] (init (newWriter 2 80)) in
  issued w (write ["a"; "x"; "c"; "d"] w)
  = [MainSetLine 1 "x"; MainSetLine 3 "d"; MainSetScrollPerc 100; ScreenRender].
Proof. vm_compute. reflexivity. Qed.

(** *** Instances of the theorems *)

Definition twoLines : LogEntry.t :=
  LogEntry.mk "m" 2 StatusDone false 0 ("two" +:+ nl +:+ "lines")
    [ LogEntry.mk "c" 2 StatusActive false 1 "child" [] ].

Definition childRecord : TerminalEntry.t :=
  {| TerminalEntry.key := "c";
     TerminalEntry.text := "   \ child" +:+ nl;
     TerminalEntry.lineNumber := 2;
     TerminalEntry.spinnerCoords := Some (3, 2) |}.

Definition summaryRecord : TerminalEntry.t :=
  {| TerminalEntry.key := "3";
     TerminalEntry.text := "done" +:+ nl;
     TerminalEntry.lineNumber := 3;
     TerminalEntry.spinnerCoords := None |}.

Lemma fullRender_lineNumbers_witness :
  let recs := fst (fullRender plain (Logger.mk [twoLines; summary])
                     (init (newWriter 2 80))) in
  recs !! 1 = Some childRecord ∧ recs !! 2 = Some summaryRecord ∧ 1 ≤ 2
  ∧ TerminalEntry.lineNumber summaryRecord
    = TerminalEntry.lineNumber childRecord + recordLines childRecord.
Proof.
  cbv zeta.
  assert (H1 : fst (fullRender plain (Logger.mk [twoLines; summary])
                      (init (newWriter 2 80))) !! 1 = Some childRecord)
    by (vm_compute; reflexivity).
  assert (H2 : fst (fullRender plain (Logger.mk [twoLines; summary])
                      (init (newWriter 2 80))) !! 2 = Some summaryRecord)
    by (vm_compute; reflexivity).
  assert (H12 : 1 ≤ 2) by lia.
  destruct (fullRender_lineNumbers plain _ _ 1 2 _ _ H1 H2 H12) as (_ & _ & _ & H).
  split; [exact H1|]. split; [exact H2|]. split; [exact H12|].
  exact (H eq_refl).
Defined.

Lemma renderGraph_twice_silent_witness :
  let lg := Logger.mk [out1; out2; summary] in
  let w1 := renderGraph plain lg (init (newWriter 2 80)) in
  (∀ entry, entry ∈ getChildEntries lg →
            visible 2 entry → inactive entry)
  ∧ calls (renderGraph plain lg w1) = calls w1.
Proof.
  cbv zeta.
  assert (H : ∀ entry, entry ∈ getChildEntries (Logger.mk [out1; out2; summary]) →
                       visible (level (init (newWriter 2 80))) entry → inactive entry).
  { intros entry Hin _. simpl in Hin.
    repeat (apply elem_of_cons in Hin as [->|Hin]; [discriminate|]).
    by apply elem_of_nil in Hin. }
  split; [exact H|].
  destruct (renderGraph_twice_silent plain _ _ H) as (_ & Hcalls & _).
  exact Hcalls.
Defined.

Lemma fullRender_spinner_lifecycle_witness :
  let lg := Logger.mk [built; summary] in
  let w := fst (run plain [GraphChange 1000 building (Logger.mk [building])]
                  (newWriter 2 80, noLogger)) in
  NoDup (LogEntry.key <$> getChildEntries lg)
  ∧ built ∈ getChildEntries lg
  ∧ visible (level w) built
  ∧ inactive built
  ∧ spinners w !! "a" = Some 1
  ∧ spinners (snd (fullRender plain lg w)) !! "a" = None.
Proof.
  cbv zeta.
  assert (Hnd : NoDup (LogEntry.key <$> getChildEntries (Logger.mk [built; summary])))
    by (apply (bool_decide_unpack _); vm_compute; exact I).
  assert (Hin : built ∈ getChildEntries (Logger.mk [built; summary]))
    by (simpl; by left).
  assert (Hvis : visible
            (level (fst (run plain [GraphChange 1000 building (Logger.mk [building])]
                           (newWriter 2 80, noLogger)))) built)
    by (vm_compute; lia).
  assert (Hst : inactive built) by discriminate.
  destruct (fullRender_spinner_lifecycle plain _ _ built false Hnd Hin Hvis Hst)
    as (Hgone & _).
  split; [exact Hnd|]. split; [exact Hin|]. split; [exact Hvis|].
  split; [exact Hst|]. split; [vm_compute; reflexivity|].
  exact Hgone.
Defined.

(** ** More on the diff writer: what the canvas shows *)

(** The canvas shows the recorded output: every line of [prevOutput] is on
    the main box at its row. *)
Definition shows (w : Writer) : Prop :=
  ∀ i line, prevOutput w !! i = Some line → mainLines w !! i = Some line.

Lemma setLine_lookup_eq y line lines : setLine y line lines !! y = Some line.
Proof.
  unfold setLine. apply list_lookup_insert_eq.
  rewrite length_app, length_replicate. lia.
Qed.

Lemma setLine_lookup_Some y line lines i old :
  i ≠ y → lines !! i = Some old → setLine y line lines !! i = Some old.
Proof.
  intros Hne Hold. unfold setLine.
  rewrite list_lookup_insert_ne by done.
  rewrite lookup_app_l; [done|]. by eapply lookup_lt_Some.
Qed.

Lemma length_setLine y line lines :
  length (setLine y line lines) = length lines `max` S y.
Proof. unfold setLine. rewrite length_insert, length_app, length_replicate. lia. Qed.

(** The loop of [write] from row [y] on: rows below [y] that exist stay,
    and every row of the output ends up on the canvas, provided the canvas
    showed the recorded output from row [y] on. *)
Lemma writeRows_shows output y changed w :
  (∀ i line, y ≤ i → prevOutput w !! i = Some line → mainLines w !! i = Some line) →
  (∀ i line, i < y → mainLines w !! i = Some line →
             mainLines (snd (writeRows y output changed w)) !! i = Some line)
  ∧ (∀ i line, output !! i = Some line →
               mainLines (snd (writeRows y output changed w)) !! (y + i) = Some line).
Proof.
  revert y changed w.
  induction output as [|row rest IH]; intros y changed w Hshows; cbn [writeRows].
  - split; [done|]. intros i line Hi. by rewrite lookup_nil in Hi.
  - destruct (rowChanged (prevOutput w) y row) eqn:Hch.
    + destruct (IH (S y) true (emit (MainSetLine y row) w)) as [Hbelow Hrows].
      { intros i line Hle Hprev. simpl in *.
        apply setLine_lookup_Some; [lia|]. apply Hshows; [lia|done]. }
      split.
      * intros i line Hlt Hi. apply Hbelow; [lia|]. simpl.
        apply setLine_lookup_Some; [lia|done].
      * intros [|i] line Hi; simpl in Hi.
        -- injection Hi as ->. rewrite Nat.add_0_r.
           apply Hbelow; [lia|]. simpl. apply setLine_lookup_eq.
        -- replace (y + S i) with (S y + i) by lia. by apply Hrows.
    + destruct (IH (S y) changed w) as [Hbelow Hrows].
      { intros i line Hle Hprev. apply Hshows; [lia|done]. }
      split.
      * intros i line Hlt Hi. apply Hbelow; [lia|done].
      * intros [|i] line Hi; simpl in Hi.
        -- injection Hi as ->. rewrite Nat.add_0_r.
           apply Hbelow; [lia|]. apply Hshows; [lia|].
           rewrite rowChanged_rowDiffers in Hch.
           apply bool_decide_eq_false_1 in Hch. unfold rowDiffers in Hch; simpl in Hch.
           destruct (decide (prevOutput w !! y = Some line)); [done|].
           exfalso. apply Hch. by right.
        -- replace (y + S i) with (S y + i) by lia. by apply Hrows.
Qed.

Lemma write_mainLines output w :
  mainLines (write output w) = mainLines (snd (writeRows 0 output false w)).
Proof.
  unfold write. destruct (writeRows 0 output false w) as [[|] w1]; simpl; [|done].
  by destruct (scrolling w1).
Qed.

Lemma write_shows output w i line :
  shows w → output !! i = Some line → mainLines (write output w) !! i = Some line.
Proof.
  intros Hshows Hi. rewrite write_mainLines.
  destruct (writeRows_shows output 0 false w) as [_ Hrows].
  - intros j l _. apply Hshows.
  - by apply (Hrows i line).
Qed.

(** *** Lines that the box keeps as they are

    A blessed element normalises the content it is given: control
    characters are dropped, an escape character stays only where it starts
    a colour sequence (ESC, an opening bracket, digits and semicolons, the
    letter m), a carriage return becomes a line break and a tab becomes
    spaces; with [fullUnicode] set, a character is added after every wide
    one.  A line made of printable ASCII characters and colour sequences
    goes through all of this unchanged. *)
Inductive Scan : Type := InText | AfterEsc | InColour.

Fixpoint scanLine (st : Scan) (line : string) : bool :=
  match line with
  | EmptyString => match st with InText => true | _ => false end
  | String c rest =>
      let n := nat_of_ascii c in
      match st with
      | InText =>
          if n =? 27 then scanLine AfterEsc rest
          else (32 <=? n) && (n <? 127) && scanLine InText rest
      | AfterEsc => (n =? 91) && scanLine InColour rest
      | InColour =>
          if n =? 109 then scanLine InText rest
          else ((48 <=? n) && (n <=? 57) || (n =? 59)) && scanLine InColour rest
      end
  end.

Definition keptAsIs (line : string) : bool := scanLine InText line.


(** *** The full redraw of [changeLevel] *)

Lemma writeRows_length output y changed w :
  prevOutput w = [] →
  length (mainLines (snd (writeRows y output changed w)))
  = match output with
    | [] => length (mainLines w)
    | _ :: _ => length (mainLines w) `max` (y + length output)
    end.
Proof.
  revert y changed w.
  induction output as [|row rest IH]; intros y changed w Hprev; cbn [writeRows];
    [done|].
  assert (Hch : rowChanged (prevOutput w) y row = true).
  { rewrite rowChanged_rowDiffers. apply bool_decide_eq_true_2.
    right. simpl. by rewrite Hprev, lookup_nil. }
  rewrite Hch, IH by done. simpl. rewrite length_setLine.
  destruct rest; simpl; lia.
Qed.

Lemma write_fresh output w :
  prevOutput w = [] → length (mainLines w) ≤ 1 → output ≠ [] →
  mainLines (write output w) = output.
Proof.
  intros Hprev Hlen Hne. apply list_eq. intros i.
  destruct (output !! i) as [line|] eqn:Hi.
  - apply write_shows; [|done]. intros j l Hj. by rewrite Hprev, lookup_nil in Hj.
  - apply lookup_ge_None_2. rewrite write_mainLines, writeRows_length by done.
    apply lookup_ge_None_1 in Hi. destruct output; [done|]. simpl in *. lia.
Qed.

Lemma flatten_nonempty terminalEntries : flatten terminalEntries ≠ [].
Proof.
  unfold flatten. intros H.
  pose proof (split_nl_length (join (TerminalEntry.text <$> terminalEntries))) as Hl.
  rewrite H in Hl. simpl in Hl. lia.
Qed.

Section Coverage.
Context (env : Imports).

Lemma fullRender_fst_ext lg w w' :
  level w' = level w → mainWidth w' = mainWidth w → spinners w' = spinners w →
  fst (fullRender env lg w') = fst (fullRender env lg w).
Proof.
  intros Hl Hm Hs. unfold fullRender. rewrite Hl, Hm, Hs.
  by destruct (fold_left _ _ _) as [[acc cur] sp].
Qed.

Lemma differingRows_nil output : differingRows [] output = indexFrom 0 output.
Proof.
  unfold differingRows. generalize 0.
  induction output as [|line rest IH]; intros y; cbn [indexFrom]; [done|].
  rewrite filter_cons_True by (left; simpl; lia). by rewrite IH.
Qed.

(** X7.  Once something has been rendered, [changeLevel] redraws from
    scratch, whatever the canvas and [prevOutput] held before: the new
    level is recorded, the snapshot is built at the new level and recorded
    as the output, and the calls issued are [setContent] with the empty
    string, one [setLine] for every row of the new output in the order of
    the rows, the scroll to the bottom unless the user has scrolled back,
    and one repaint.  If the box keeps these lines as they are, it holds
    exactly them afterwards. *)
Theorem changeLevel_redraws (lvl : nat) (w : Writer) (lg : Logger.t)
    (Hlogger : logger w = Some lg) (Hinit : initialized w = true) :
  let w' := changeLevel env lvl w in
  let output := flatten (fst (fullRender env lg (with_level lvl w))) in
  level w' = lvl
  ∧ prevOutput w' = output
  ∧ issued w w'
    = [MainSetContent EmptyString]
      ++ (setLineCall <$> indexFrom 0 output)
      ++ (if scrolling w then [] else [MainSetScrollPerc 100])
      ++ [ScreenRender]
  ∧ (forallb keptAsIs output = true → mainLines w' = output).
Proof.
  cbv zeta. unfold changeLevel.
  change (logger (with_level lvl w)) with (logger w).
  change (initialized (with_level lvl w)) with (initialized w).
  rewrite Hlogger, Hinit, renderGraph_unfold.
  set (w2 := emit (MainSetContent EmptyString) (with_prevOutput [] (with_level lvl w))).
  destruct (fullRender_sameFields env lg w2) as (Hl&_&Hc&Hp&Hs&Hm&_).
  destruct (render_fields (fst (fullRender env lg w2)) false
              (snd (fullRender env lg w2))) as (Hl'&_&_&Hp'&_).
  split; [by rewrite Hl', Hl|].
  assert (Hrecs : fst (fullRender env lg w2) = fst (fullRender env lg (with_level lvl w)))
    by (by apply fullRender_fst_ext).
  split; [by rewrite Hp', Hrecs|].
  split.
  - apply issued_app. rewrite render_calls, Hc, Hp, Hs, Hrecs.
    unfold writeCalls. rewrite differingRows_nil.
    pose proof (flatten_nonempty (fst (fullRender env lg (with_level lvl w)))) as Hne.
    destruct (flatten (fst (fullRender env lg (with_level lvl w)))) as [|line rest];
      [done|].
    cbn [indexFrom]. unfold w2. simpl. by rewrite <- app_assoc.
  - intros _. rewrite <- Hrecs, render_spec. simpl.
    apply write_fresh.
    + exact Hp.
    + rewrite Hm. simpl. lia.
    + apply flatten_nonempty.
Qed.


(** *** The spinner generators *)

(** The map after [k] calls of [tickSpinner(key)] in a row. *)
Fixpoint tickTimes (k : nat) (key : string) (sp : gmap string nat)
  : gmap string nat :=
  match k with
  | 0 => sp
  | S k' => snd (tickSpinner env key (tickTimes k' key sp))
  end.

Lemma tickSpinner_unfold key sp :
  tickSpinner env key sp
  = (nth ((default 0 (sp !! key) + 1) `mod` length (frames env)) (frames env)
         EmptyString,
     <[key := (default 0 (sp !! key) + 1) `mod` length (frames env)]> sp).
Proof. reflexivity. Qed.

Lemma tickTimes_index k key sp :
  frames env ≠ [] →
  default 0 (tickTimes k key sp !! key) `mod` length (frames env)
  = (default 0 (sp !! key) + k) `mod` length (frames env).
Proof.
  intros Hne.
  assert (Hn : length (frames env) ≠ 0) by (by destruct (frames env)).
  induction k as [|k IH]; cbn [tickTimes].
  - by rewrite Nat.add_0_r.
  - rewrite tickSpinner_unfold. cbn [snd]. rewrite lookup_insert_eq. cbn [default from_option id].
    rewrite Nat.Div0.mod_mod.
    rewrite <- Nat.Div0.add_mod_idemp_l, IH, Nat.Div0.add_mod_idemp_l.
    f_equal. lia.
Qed.

(** The names that every object inherits from [Object.prototype]: looked
    up on the plain object [this.spinners], each of them finds the
    inherited member, not a generator. *)
Definition inheritedNames : list string :=
  [ "constructor"; "hasOwnProperty"; "isPrototypeOf"; "propertyIsEnumerable";
    "toLocaleString"; "toString"; "valueOf"; "__proto__";
    "__defineGetter__"; "__defineSetter__"; "__lookupGetter__";
    "__lookupSetter__" ].

(** X8.  The generators cycle and do not interfere.  For a key that is not
    the name of a member inherited from [Object.prototype], and with a
    non-empty list of frames, the [(k+1)]-th call in a row for the key
    yields the frame at index [(i + k + 1) mod n], where [i] is the index
    the key's generator had before (0 for a key without one) and [n] the
    number of frames; it is one of the frames, and the calls leave the
    generator of every other key alone. *)
Theorem tickSpinner_cycles (k : nat) (key : string) (sp : gmap string nat)
    (Hkey : key ∉ inheritedNames) (Hframes : frames env ≠ []) :

  let n := length (frames env) in
  let i := default 0 (sp !! key) in
  fst (tickSpinner env key (tickTimes k key sp))
  = nth ((i + k + 1) `mod` n) (frames env) EmptyString
  ∧ fst (tickSpinner env key (tickTimes k key sp)) ∈ frames env
  ∧ tickTimes (S k) key sp !! key = Some ((i + k + 1) `mod` n)
  ∧ ∀ other, other ≠ key → tickTimes k key sp !! other = sp !! other.
Proof.
  cbv zeta.
  assert (Hn : length (frames env) ≠ 0) by (by destruct (frames env)).
  assert (Hidx : (default 0 (tickTimes k key sp !! key) + 1) `mod` length (frames env)
                 = (default 0 (sp !! key) + k + 1) `mod` length (frames env)).
  { rewrite <- Nat.Div0.add_mod_idemp_l, tickTimes_index by done.
    by rewrite Nat.Div0.add_mod_idemp_l. }
  split; [by rewrite tickSpinner_unfold; cbn [fst]; rewrite Hidx|].
  split.
  - rewrite tickSpinner_unfold; cbn [fst]. rewrite Hidx.
    apply list_elem_of_In, nth_In. apply Nat.mod_upper_bound. exact Hn.
  - split.
    + cbn [tickTimes]. rewrite tickSpinner_unfold. cbn [snd].
      by rewrite lookup_insert_eq, Hidx.
    + intros other Hother. induction k as [|k IH]; cbn [tickTimes]; [done|].
      rewrite tickSpinner_unfold. cbn [snd]. rewrite lookup_insert_ne by done.
      apply IH.
      rewrite <- Nat.Div0.add_mod_idemp_l, tickTimes_index by done.
      by rewrite Nat.Div0.add_mod_idemp_l.
Qed.

(** *** The records of a snapshot *)

Lemma entryRecords_elem width cur sp entry r :
  r ∈ entryRecords env width cur sp entry →
  TerminalEntry.key r = LogEntry.key entry
  ∧ TerminalEntry.text r ≠ EmptyString
  ∧ TerminalEntry.lineNumber r = cur
  ∧ TerminalEntry.spinnerCoords r = entryCoords env cur entry.
Proof.
  unfold entryRecords. destruct (entryText env width sp entry) eqn:Ht.
  - by intros ?%elem_of_nil.
  - intros ->%list_elem_of_singleton. by repeat split.
Qed.

Lemma renderEntries_elem width entries acc cur sp r :
  r ∈ fst (fst (fold_left (renderEntry env width) entries (acc, cur, sp))) →
  r ∈ acc
  ∨ ∃ entry, entry ∈ entries
             ∧ TerminalEntry.key r = LogEntry.key entry
             ∧ TerminalEntry.text r ≠ EmptyString
             ∧ TerminalEntry.spinnerCoords r
               = entryCoords env (TerminalEntry.lineNumber r) entry.
Proof.
  revert acc cur sp.
  induction entries as [|e entries IH]; intros acc cur sp Hr;
    cbn [fold_left] in Hr; [by left|].
  rewrite renderEntry_unfold in Hr.
  apply IH in Hr as [Hr|(entry & Hin & Hrest)].
  - apply elem_of_app in Hr as [Hr|Hr]; [by left|]. right. exists e.
    split; [by left|].
    apply entryRecords_elem in Hr as (Hk & Ht & Hl & Hc).
    rewrite Hl. by repeat split.
  - right. exists entry. split; [by right|done].
Qed.

Lemma fullRender_elem lg w r :
  r ∈ fst (fullRender env lg w) →
  ∃ entry, entry ∈ getChildEntries lg ∧ visible (level w) entry
           ∧ TerminalEntry.key r = LogEntry.key entry
           ∧ TerminalEntry.text r ≠ EmptyString
           ∧ TerminalEntry.spinnerCoords r
             = entryCoords env (TerminalEntry.lineNumber r) entry.
Proof.
  intros Hr.
  assert (Hr' : r ∈ [] ∨ ∃ entry,
             entry ∈ filter (visible (level w)) (getChildEntries lg)
             ∧ TerminalEntry.key r = LogEntry.key entry
             ∧ TerminalEntry.text r ≠ EmptyString
             ∧ TerminalEntry.spinnerCoords r
               = entryCoords env (TerminalEntry.lineNumber r) entry).
  { apply (renderEntries_elem (mainWidth w) _ [] 0 (spinners w)).
    unfold fullRender in Hr. by destruct (fold_left _ _ _) as [[acc cur] sp]. }
  destruct Hr' as [Hr'|(entry & Hin & Hrest)]; [by apply elem_of_nil in Hr'|].
  apply list_elem_of_filter in Hin as [Hv Hin]. by exists entry.
Qed.

(** X9.  Every record of a snapshot comes from an entry of the graph that
    passes the severity filter and carries its key; its text is not empty;
    and it has spinner coordinates exactly when that entry is active, namely
    the length of the entry's left padding as the column and the record's
    own line number as the row. *)
Theorem fullRender_records (lg : Logger.t) (w : Writer) (r : TerminalEntry.t)
    (Hr : r ∈ fst (fullRender env lg w)) :
  TerminalEntry.text r ≠ EmptyString
  ∧ ∃ entry,
      entry ∈ getChildEntries lg
      ∧ LogEntry.level entry ≤ level w
      ∧ TerminalEntry.key r = LogEntry.key entry
      ∧ TerminalEntry.spinnerCoords r
        = if decide (LogEntry.status entry = StatusActive)
          then Some (String.length (leftPad env entry), TerminalEntry.lineNumber r)
          else None.
Proof.
  apply fullRender_elem in Hr as (entry & Hin & Hv & Hk & Ht & Hc).
  split; [done|]. exists entry. by repeat split.
Qed.

Lemma renderEntries_keys width entries acc cur sp :
  ∃ ks, TerminalEntry.key
          <$> fst (fst (fold_left (renderEntry env width) entries (acc, cur, sp)))
        = (TerminalEntry.key <$> acc) ++ ks
        ∧ ks `sublist_of` (LogEntry.key <$> entries).
Proof.
  revert acc cur sp.
  induction entries as [|e entries IH]; intros acc cur sp; cbn [fold_left].
  - exists []. by rewrite app_nil_r.
  - rewrite renderEntry_unfold.
    destruct (IH (acc ++ entryRecords env width cur sp e)
                 (cur + lineCount (entryText env width sp e))
                 (entrySpinners env sp e)) as (ks & Hks & Hsub).
    rewrite Hks, fmap_app, <- app_assoc.
    exists ((TerminalEntry.key <$> entryRecords env width cur sp e) ++ ks).
    split; [done|]. rewrite fmap_cons.
    unfold entryRecords. destruct (entryText env width sp e); simpl.
    + by apply sublist_cons.
    + by apply sublist_skip.
Qed.

(** X10.  The records of a snapshot follow the traversal order of the
    graph: their keys are, in order, keys of the entries that pass the
    severity filter, each entry contributing at most one record. *)
Theorem fullRender_order (lg : Logger.t) (w : Writer) :
  (TerminalEntry.key <$> fst (fullRender env lg w))
  `sublist_of` (LogEntry.key <$> filter (visible (level w)) (getChildEntries lg)).
Proof.
  unfold fullRender.
  destruct (renderEntries_keys (mainWidth w)
              (filter (visible (level w)) (getChildEntries lg)) [] 0 (spinners w))
    as (ks & Hks & Hsub).
  destruct (fold_left _ _ _) as [[acc cur] sp]. simpl in *.
  by rewrite Hks.
Qed.

Lemma flatten_length (terminalEntries : list TerminalEntry.t) :
  length (flatten terminalEntries) = S (sum_list_with recordLines terminalEntries).
Proof.
  unfold flatten. rewrite split_nl_length, count_nl_join_with. f_equal.
  apply sum_list_with_pointwise. intros r. symmetry. apply lineCount_count_nl.
Qed.

(** X11.  The lines of every record of a snapshot, and with them the row
    of its spinner, lie inside the flattened output: the output has one row
    more than the records have line breaks, and a record's line number plus
    its line count stays below that number of rows. *)
Theorem fullRender_rows_inside
    (lg : Logger.t) (w : Writer) (i : nat) (r : TerminalEntry.t)
    (Hi : fst (fullRender env lg w) !! i = Some r) :
  let recs := fst (fullRender env lg w) in
  length (flatten recs) = S (sum_list_with recordLines recs)
  ∧ TerminalEntry.lineNumber r + recordLines r < length (flatten recs)
  ∧ ∀ x y, TerminalEntry.spinnerCoords r = Some (x, y) → y < length (flatten recs).
Proof.
  cbv zeta. pose proof (fullRender_numbered env lg w i r Hi) as Hnum.
  set (recs := fst (fullRender env lg w)) in *.
  assert (Hsum : sum_list_with recordLines recs
                 = sum_list_with recordLines (take i recs) + recordLines r
                   + sum_list_with recordLines (drop (S i) recs)).
  { rewrite <- (take_drop i recs) at 1. rewrite sum_list_with_app.
    rewrite (drop_S _ _ _ Hi). simpl. lia. }
  assert (Hin : TerminalEntry.lineNumber r + recordLines r < length (flatten recs))
    by (rewrite flatten_length; lia).
  split; [apply flatten_length|]. split; [exact Hin|].
  intros x y Hc.
  assert (Hr : r ∈ recs) by (apply list_elem_of_lookup; by exists i).
  apply fullRender_elem in Hr as (entry & _ & _ & _ & _ & Hc').
  rewrite Hc in Hc'. unfold entryCoords in Hc'.
  destruct (decide (LogEntry.status entry = StatusActive)); [|done].
  injection Hc' as _ ->. lia.
Qed.

(** *** A notification without a record *)

Lemma find_None {A : Type} (f : A → bool) (l : list A) :
  (∀ x, x ∈ l → f x = false) → List.find f l = None.
Proof.
  induction l as [|a l IH]; intros H; simpl; [done|].
  rewrite (H a) by (by left). apply IH. intros x Hx. apply H. by right.
Qed.

(** X12.  "Nothing to do": when no entry that passes the severity filter
    has the key of the notified entry, a notification that is not deferred
    builds the snapshot and stops there.  It issues no call, and the
    canvas, [prevOutput] and the spinner loop are what they were. *)
Theorem notification_without_record
    (now : Z) (log : LogEntry.t) (lg : Logger.t) (didWrite : bool) (w : Writer)
    (Hnow : deferred now log didWrite w = false)
    (Hkey : LogEntry.key log
            ∉ LogEntry.key <$> filter (visible (level w)) (getChildEntries lg)) :
  let w' := handleGraphChange env now log lg didWrite w in
  calls w' = calls w
  ∧ mainLines w' = mainLines w
  ∧ prevOutput w' = prevOutput w
  ∧ intervalID w' = intervalID w.
Proof.
  cbv zeta.
  assert (Hskip : ∀ w0, level w0 = level w →
            renderNow env log lg didWrite w0 = snd (fullRender env lg w0)).
  { intros w0 Hl. unfold renderNow.
    pose proof (fullRender_elem lg w0) as Helem.
    destruct (fullRender env lg w0) as [recs w1]; simpl in *.
    rewrite find_None; [done|].
    intros r Hr. apply bool_decide_eq_false_2. intros Hk.
    destruct (Helem r Hr) as (entry & Hin & Hv & Hke & _).
    apply Hkey. rewrite <- Hk, Hke. apply list_elem_of_fmap_2.
    apply list_elem_of_filter. split; [|done]. unfold visible in *. by rewrite <- Hl. }
  unfold handleGraphChange. unfold deferred in Hnow.
  change (throttleProcessing now (with_logger (Some lg) (with_updatePending false w)))
    with (throttleProcessing now w).
  destruct (LogEntry.fromStdStream log && negb didWrite); simpl in Hnow.
  - rewrite Hnow, Hskip by done.
    by destruct (fullRender_sameFields env lg
                   (with_lastInterceptAt (Some now)
                      (with_logger (Some lg) (with_updatePending false w))))
      as (_&_&->&->&_&->&->&_).
  - rewrite Hskip by done.
    by destruct (fullRender_sameFields env lg
                   (with_logger (Some lg) (with_updatePending false w)))
      as (_&_&->&->&_&->&->&_).
Qed.

(** *** Deferring and catching up *)

Lemma renderNow_frame log lg didWrite w :
  initialized (renderNow env log lg didWrite w) = initialized w
  ∧ errorMessages (renderNow env log lg didWrite w) = errorMessages w
  ∧ timeouts (renderNow env log lg didWrite w) = timeouts w
  ∧ lastInterceptAt (renderNow env log lg didWrite w) = lastInterceptAt w.
Proof.
  unfold renderNow.
  destruct (fullRender_sameFields env lg w)
    as (_&_&_&_&_&_&_&Hi&He&_&Ht&Hin&_).
  destruct (fullRender env lg w) as [recs w1]; simpl in *.
  destruct (List.find _ recs); [|done].
  by destruct (render_fields recs didWrite w1) as (_&_&_&_&_&_&->&->&_&->&->&_).
Qed.

Lemma handleGraphChange_frame now log lg didWrite w :
  initialized (handleGraphChange env now log lg didWrite w) = initialized w
  ∧ errorMessages (handleGraphChange env now log lg didWrite w) = errorMessages w.
Proof.
  unfold handleGraphChange.
  destruct (LogEntry.fromStdStream log && negb didWrite).
  - destruct (throttleProcessing _ _).
    + rewrite stopLoop_eq. by split.
    + by destruct (renderNow_frame log lg didWrite
                     (with_lastInterceptAt (Some now)
                        (with_logger (Some lg) (with_updatePending false w))))
        as (->&->&_).
  - by destruct (renderNow_frame log lg didWrite
                   (with_logger (Some lg) (with_updatePending false w)))
      as (->&->&_).
Qed.

Lemma handleGraphChange_timeouts now log lg didWrite w :
  timeouts (handleGraphChange env now log lg didWrite w)
  = timeouts w
    ++ (if deferred now log didWrite w then [((now + THROTTLE_MS)%Z, log)] else []).
Proof.
  unfold handleGraphChange, deferred.
  change (throttleProcessing now (with_logger (Some lg) (with_updatePending false w)))
    with (throttleProcessing now w).
  destruct (LogEntry.fromStdStream log && negb didWrite); simpl.
  - destruct (throttleProcessing now w).
    + rewrite stopLoop_eq. reflexivity.
    + destruct (renderNow_frame log lg didWrite
                  (with_lastInterceptAt (Some now)
                     (with_logger (Some lg) (with_updatePending false w))))
        as (_&_&->&_).
      simpl. by rewrite app_nil_r.
  - destruct (renderNow_frame log lg didWrite
                (with_logger (Some lg) (with_updatePending false w)))
      as (_&_&->&_).
    simpl. by rewrite app_nil_r.
Qed.

(** X13.  When a call defers.  After [handleGraphChange] an update is
    pending exactly when the entry comes from a live stream, the call is not
    a catch-up call, and an earlier interception is on record at a time
    other than 0 and less than 600 ms before now (a gap of exactly 600 ms
    does not defer; the first interception never does).  A deferred call
    adds one timeout, due 600 ms from now and carrying the entry; every
    other call, a catch-up call in particular, schedules nothing. *)
Theorem handleGraphChange_defers_iff
    (now : Z) (log : LogEntry.t) (lg : Logger.t) (didWrite : bool) (w : Writer) :
  let w' := handleGraphChange env now log lg didWrite w in
  (updatePending w' = true
   ↔ LogEntry.fromStdStream log = true ∧ didWrite = false
     ∧ ∃ t, lastInterceptAt w = Some t ∧ t ≠ 0%Z ∧ (now - t < 600)%Z)
  ∧ timeouts w'
    = timeouts w ++ (if updatePending w' then [((now + 600)%Z, log)] else []).
Proof.
  cbv zeta. rewrite handleGraphChange_timeouts, handleGraphChange_updatePending.
  split; [|done].
  unfold deferred, throttleProcessing, THROTTLE_MS.
  destruct (LogEntry.fromStdStream log), didWrite; simpl;
    try (split; [done | by intros (?&?&?)]).
  destruct (lastInterceptAt w) as [t|].
  - rewrite andb_true_iff, negb_true_iff, Z.eqb_neq, Z.ltb_lt. split.
    + intros [? ?]. do 2 (split; [done|]). by exists t.
    + intros (_ & _ & t' & [= <-] & ? & ?). by split.
  - split; [done|]. by intros (_ & _ & t & ? & _).
Qed.

(** Fields that a run of due timeouts leaves alone. *)
Definition quiet (w w' : Writer) : Prop :=
  calls w' = calls w ∧ mainLines w' = mainLines w
  ∧ lastInterceptAt w' = lastInterceptAt w ∧ timeouts w' = timeouts w
  ∧ errorMessages w' = errorMessages w ∧ initialized w' = initialized w.

Lemma fireTimeout_quiet now log lg w :
  quiet w (fireTimeout env now log lg w)
  ∧ updatePending (fireTimeout env now log lg w) = false.
Proof.
  unfold fireTimeout. destruct (updatePending w) eqn:Hp; [|by repeat split].
  destruct (handleGraphChange_catchup_silent env now log lg w) as [Hc Hm].
  destruct (handleGraphChange_frame now log lg true w) as [Hi He].
  pose proof (handleGraphChange_timeouts now log lg true w) as Ht.
  pose proof (handleGraphChange_updatePending env now log lg true w) as Hu.
  unfold deferred in Ht, Hu. rewrite andb_false_r in Ht, Hu. simpl in Ht, Hu.
  rewrite app_nil_r in Ht.
  split; [|done]. repeat split; try done.
  unfold handleGraphChange. rewrite andb_false_r.
  by destruct (renderNow_frame log lg true
                 (with_logger (Some lg) (with_updatePending false w)))
    as (_&_&_&->).
Qed.

Lemma fireTimeouts_quiet lg (due : list (Z * LogEntry.t)) w :
  quiet w (fold_left (λ acc p, fireTimeout env (fst p) (snd p) lg acc) due w)
  ∧ updatePending (fold_left (λ acc p, fireTimeout env (fst p) (snd p) lg acc) due w)
    = updatePending w && bool_decide (due = []).
Proof.
  revert w. induction due as [|p due IH]; intros w; cbn [fold_left].
  - rewrite andb_true_r. by repeat split.
  - destruct (fireTimeout_quiet (fst p) (snd p) lg w) as [Hq Hu].
    destruct (IH (fireTimeout env (fst p) (snd p) lg w)) as [Hq' Hu'].
    rewrite Hu' , Hu. rewrite andb_false_r. split; [|done].
    unfold quiet in *.
    destruct Hq as (?&?&?&?&?&?), Hq' as (?&?&?&?&?&?).
    repeat split; congruence.
Qed.

(** X14.  Timeouts that fire.  Firing the timeouts due by [t] writes
    nothing: no call is issued and the canvas, [lastInterceptAt] and the
    buffered error messages stay as they are.  Exactly the due timeouts
    leave the list, none is added, and if at least one was due no update is
    pending afterwards. *)
Theorem runTimeouts_quiet (t : Z) (lg : Logger.t) (w : Writer) :
  let w' := runTimeouts env t lg w in
  calls w' = calls w
  ∧ mainLines w' = mainLines w
  ∧ lastInterceptAt w' = lastInterceptAt w
  ∧ errorMessages w' = errorMessages w
  ∧ timeouts w' = List.filter (λ p, negb (fst p <=? t)%Z) (timeouts w)
  ∧ updatePending w'
    = updatePending w
      && bool_decide (List.filter (λ p, (fst p <=? t)%Z) (timeouts w) = []).
Proof.
  cbv zeta. unfold runTimeouts.
  destruct (fireTimeouts_quiet lg
              (List.filter (λ p, (fst p <=? t)%Z) (timeouts w))
              (with_timeouts (List.filter (λ p, negb (fst p <=? t)%Z) (timeouts w)) w))
    as [(Hc&Hm&Hl&Ht&He&_) Hu].
  by repeat split.
Qed.

Lemma runTimeouts_frame t lg w :
  calls (runTimeouts env t lg w) = calls w
  ∧ mainLines (runTimeouts env t lg w) = mainLines w
  ∧ lastInterceptAt (runTimeouts env t lg w) = lastInterceptAt w
  ∧ initialized (runTimeouts env t lg w) = initialized w
  ∧ errorMessages (runTimeouts env t lg w) = errorMessages w.
Proof.
  unfold runTimeouts.
  destruct (fireTimeouts_quiet lg
              (List.filter (λ p, (fst p <=? t)%Z) (timeouts w))
              (with_timeouts (List.filter (λ p, negb (fst p <=? t)%Z) (timeouts w)) w))
    as [(Hc&Hm&Hl&Ht&He&Hi) _].
  by repeat split.
Qed.

Lemma onGraphChange_unfold now entry lg w :
  ∃ w0, onGraphChange env now entry lg w = handleGraphChange env now entry lg false w0
        ∧ initialized w0 = true
        ∧ lastInterceptAt w0 = lastInterceptAt w
        ∧ (initialized w = true → calls w0 = calls w ∧ mainLines w0 = mainLines w)
        ∧ errorMessages w0
          = errorMessages w
            ++ (if (LogEntry.level entry =? LogLevel_error env)%nat
                then match basicRender env entry lg with
                     | Some (String c out) => [String c out]
                     | _ => []
                     end
                else []).
Proof.
  unfold onGraphChange.
  set (w1 := if (LogEntry.level entry =? LogLevel_error env)%nat then _ else w).
  assert (H1 : initialized w1 = initialized w ∧ lastInterceptAt w1 = lastInterceptAt w
               ∧ calls w1 = calls w ∧ mainLines w1 = mainLines w
               ∧ errorMessages w1
                 = errorMessages w
                   ++ (if (LogEntry.level entry =? LogLevel_error env)%nat
                       then match basicRender env entry lg with
                            | Some (String c out) => [String c out]
                            | _ => []
                            end
                       else [])).
  { unfold w1. destruct (_ =? _)%nat; [|by rewrite app_nil_r].
    destruct (basicRender env entry lg) as [[|c out]|]; simpl;
      by rewrite ?app_nil_r. }
  destruct H1 as (Hi & Hl & Hc & Hm & He).
  exists (if initialized w1 then w1 else init w1). split; [done|].
  destruct (initialized w1) eqn:Hi1; simpl.
    - split; [done|]. split; [done|]. split; [by intros _|done].
  - split; [done|]. split; [done|]. split; [|done].
    intros Hw. congruence.
Qed.

(** X15.  Inside a burst nothing reaches the canvas.  After a
    notification from a live stream has been handled at a time [t] other
    than 0, the next notification from a live stream, if it comes less than
    600 ms later, is deferred whatever timeouts fire in between: it issues
    no call, the canvas is unchanged, an update is pending and
    [lastInterceptAt] moves on to its time. *)
Theorem second_notification_of_burst_is_silent
    (t t' : Z) (log log' : LogEntry.t) (lg0 lg lg' : Logger.t) (w : Writer)
    (Hlog : LogEntry.fromStdStream log = true)
    (Hlog' : LogEntry.fromStdStream log' = true)
    (Ht : t ≠ 0%Z) (Hgap : (t' - t < 600)%Z) :
  let st1 := step env (w, lg0) (GraphChange t log lg) in
  let st2 := step env st1 (GraphChange t' log' lg') in
  calls (fst st2) = calls (fst st1)
  ∧ mainLines (fst st2) = mainLines (fst st1)
  ∧ updatePending (fst st2) = true
  ∧ lastInterceptAt (fst st1) = Some t
  ∧ lastInterceptAt (fst st2) = Some t'.
Proof.
  cbv zeta. cbn [step eventTime fst snd].
  set (w1 := onGraphChange env t log lg (runTimeouts env t lg0 w)).
  assert (H1 : lastInterceptAt w1 = Some t ∧ initialized w1 = true).
  { unfold w1.
    destruct (onGraphChange_unfold t log lg (runTimeouts env t lg0 w))
      as (w0 & -> & Hi0 & _).
    destruct (handleGraphChange_frame t log lg false w0) as [-> _].
    split; [|done].
    unfold handleGraphChange. rewrite Hlog. simpl.
    destruct (throttleProcessing _ _).
    - rewrite stopLoop_eq. reflexivity.
    - by destruct (renderNow_frame log lg false
                     (with_lastInterceptAt (Some t)
                        (with_logger (Some lg) (with_updatePending false w0))))
        as (_&_&_&->). }
  destruct H1 as [Hl1 Hi1].
  destruct (runTimeouts_frame t' lg w1) as (Hc & Hm & Hl & Hi & _).
  destruct (onGraphChange_unfold t' log' lg' (runTimeouts env t' lg w1))
    as (w0 & -> & Hi0 & Hl0 & Hcm & _).
  destruct Hcm as [Hc0 Hm0]; [congruence|].
  assert (Hthr : throttleProcessing t'
                   (with_logger (Some lg') (with_updatePending false w0)) = true).
  { unfold throttleProcessing. simpl. rewrite Hl0, Hl, Hl1.
    apply andb_true_iff. split.
    - apply negb_true_iff, Z.eqb_neq. done.
    - apply Z.ltb_lt. unfold THROTTLE_MS. lia. }
  unfold handleGraphChange. rewrite Hlog'. simpl. rewrite Hthr, stopLoop_eq. simpl.
  rewrite Hc0, Hm0, Hc, Hm. by repeat split.
Qed.

(** *** The spinner tick *)

Definition callRow (c : Call) : option nat :=
  match c with MainSetLine y _ => Some y | _ => None end.

(** The rows of the spinner coordinates of a list of records. *)
Definition spinRows (entries : list TerminalEntry.t) : list nat :=
  omap (λ e, snd <$> TerminalEntry.spinnerCoords e) entries.

Lemma spinEntry_fields w e :
  ∃ cs, calls (spinEntry env w e) = calls w ++ cs
        ∧ Forall (λ c, isSetLine c = true) cs
        ∧ omap callRow cs = spinRows [e]
        ∧ prevOutput (spinEntry env w e) = prevOutput w
        ∧ errorMessages (spinEntry env w e) = errorMessages w
        ∧ initialized (spinEntry env w e) = initialized w.
Proof.
  unfold spinEntry, spinRows. cbn [omap list_omap].
  destruct (TerminalEntry.spinnerCoords e) as [[x y]|]; simpl.
  - destruct (tickSpinner env (TerminalEntry.key e) (spinners w)) as [frame sp].
    eexists [_]. simpl. split; [reflexivity|].
    split; [by apply Forall_singleton|]. by repeat split.
  - exists []. by rewrite app_nil_r.
Qed.

Lemma spinEntries_fields entries w :
  ∃ cs, calls (fold_left (spinEntry env) entries w) = calls w ++ cs
        ∧ Forall (λ c, isSetLine c = true) cs
        ∧ omap callRow cs = spinRows entries
        ∧ prevOutput (fold_left (spinEntry env) entries w) = prevOutput w
        ∧ errorMessages (fold_left (spinEntry env) entries w) = errorMessages w
        ∧ initialized (fold_left (spinEntry env) entries w) = initialized w.
Proof.
  revert w. induction entries as [|e entries IH]; intros w; cbn [fold_left].
  - exists []. by rewrite app_nil_r.
  - destruct (spinEntry_fields w e) as (cs1 & Hc1 & Hall1 & Hrows1 & Hp1 & He1 & Hi1).
    destruct (IH (spinEntry env w e)) as (cs & Hc & Hall & Hrows & Hp & He & Hi).
    exists (cs1 ++ cs).
    rewrite Hc, Hc1, <- app_assoc, omap_app, Hrows1, Hrows, Hp, He, Hi.
    split; [done|]. split; [by apply Forall_app|].
    split; [|done].
    change (e :: entries) with ([e] ++ entries).
    unfold spinRows. by rewrite omap_app.
Qed.



Lemma filter_all_setLine cs :
  Forall (λ c, isSetLine c = true) cs → List.filter isSetLine cs = cs.
Proof.
  induction 1 as [|c cs Hc _ IH]; simpl; [done|]. by rewrite Hc, IH.
Qed.

Lemma callRow_setLines cs :
  Forall (λ c, isSetLine c = true) cs → callRow <$> cs = Some <$> omap callRow cs.
Proof.
  induction 1 as [|c cs Hc _ IH]; [done|].
  destruct c; try discriminate. rewrite fmap_cons, IH. reflexivity.
Qed.

(** X16.  One tick of the spinner loop first rewrites the rows of the
    spinner coordinates it was started with, one [setLine] for each record
    that has coordinates and in the order of the records, and then, as its
    last call, repaints once: the calls of the tick are these [setLine]
    calls followed by the one [screen.render()], and nothing else.  It does
    not touch [prevOutput], which therefore no longer describes those
    rows. *)
Theorem spin_rewrites_spinner_rows (entries : list TerminalEntry.t) (w : Writer) :
  let cs := issued w (spin env entries w) in
  cs = List.filter isSetLine cs ++ [ScreenRender]
  ∧ callRow <$> cs = (Some <$> spinRows entries) ++ [None]
  ∧ prevOutput (spin env entries w) = prevOutput w
  ∧ intervalID (spin env entries w) = intervalID w.
Proof.
  cbv zeta.
  destruct (spinEntries_fields entries w) as (cs & Hc & Hall & Hrows & Hp & _).
  assert (Hissued : issued w (spin env entries w) = cs ++ [ScreenRender]).
  { apply issued_app. unfold spin. simpl. by rewrite Hc, <- app_assoc. }
  rewrite Hissued, List.filter_app, filter_all_setLine, fmap_app,
    callRow_setLines, Hrows by done.
  simpl. rewrite app_nil_r. split; [done|]. split; [done|].
  split; [by unfold spin|]. apply spin_intervalID.
Qed.


(** *** Error messages from arrival to exit *)

(** The message that a notification adds to the buffer, if any. *)
Definition errorOf (ev : Event) : list string :=
  match ev with
  | GraphChange _ entry lg =>
      if (LogEntry.level entry =? LogLevel_error env)%nat
      then match basicRender env entry lg with
           | Some (String c out) => [String c out]
           | _ => []
           end
      else []
  | _ => []
  end.

Definition isCleanup (ev : Event) : bool :=
  match ev with Cleanup _ => true | _ => false end.

Lemma changeLevel_frame lvl w :
  initialized (changeLevel env lvl w) = initialized w
  ∧ errorMessages (changeLevel env lvl w) = errorMessages w.
Proof.
  unfold changeLevel.
  change (logger (with_level lvl w)) with (logger w).
  change (initialized (with_level lvl w)) with (initialized w).
  destruct (logger w) as [lg|]; [|done].
  destruct (initialized w) eqn:Hi; [|done].
  rewrite renderGraph_unfold.
  set (w2 := emit (MainSetContent EmptyString) (with_prevOutput [] (with_level lvl w))).
  destruct (fullRender_sameFields env lg w2) as (_&_&_&_&_&_&_&_&He&_&_&Hin&_).
  destruct (render_fields (fst (fullRender env lg w2)) false
              (snd (fullRender env lg w2))) as (_&_&_&_&_&_&_&->&_&_&->&_).
  by rewrite He, Hin.
Qed.

Lemma step_frame st ev :
  isCleanup ev = false →
  errorMessages (fst (step env st ev)) = errorMessages (fst st) ++ errorOf ev
  ∧ (initialized (fst st) = true → initialized (fst (step env st ev)) = true).
Proof.
  destruct st as [w lg]. intros Hev. cbn [step fst].
  destruct (runTimeouts_frame (eventTime ev) lg w) as (_&_&_&Hi&He).
    destruct ev; try discriminate; cbn [fst errorOf eventTime] in *.
  - destruct (onGraphChange_unfold t entry lg0 (runTimeouts env t lg w))
      as (w0 & -> & Hi0 & _ & _ & He0).
    destruct (handleGraphChange_frame t entry lg0 false w0) as [-> ->].
    simpl in He. by rewrite He0, He.
  - destruct (changeLevel_frame lvl (runTimeouts env t lg w)) as [-> ->].
    simpl in *. by rewrite app_nil_r, He, Hi.
  - simpl in *. rewrite app_nil_r.
    destruct (intervalID (runTimeouts env t lg w)) as [entries|];
      [|by rewrite He, Hi].
    destruct (spinEntries_fields entries (runTimeouts env t lg w))
      as (_ & _ & _ & _ & _ & He' & Hi').
    unfold spin. simpl. by rewrite He', Hi', He, Hi.
  - simpl in *. unfold stop. rewrite stopLoop_eq. simpl.
    by rewrite app_nil_r, He, Hi.
  - simpl in *. by rewrite app_nil_r, He, Hi.
Qed.

Lemma run_frame events st :
  Forall (λ ev, isCleanup ev = false) events →
  errorMessages (fst (run env events st))
  = errorMessages (fst st) ++ flat_map errorOf events
  ∧ (initialized (fst st) = true → initialized (fst (run env events st)) = true).
Proof.
  intros Hall. revert st. unfold run.
  induction Hall as [|ev events Hev _ IH]; intros st; cbn [fold_left flat_map].
  - by rewrite app_nil_r.
  - destruct (IH (step env st ev)) as [-> Hi].
    destruct (step_frame st ev Hev) as [-> Hi'].
    rewrite <- app_assoc. split; [done|]. intros H. by apply Hi, Hi'.
Qed.

(** X17.  Error messages are kept until the exit.  As long as [cleanup]
    has not run, the buffer holds, in the order of arrival, one message for
    every notification of an entry at the error level whose basic rendering
    is a non-empty string, also when that notification was deferred; no
        other event adds or removes one.  On a writer that is initialized by
    then, [cleanup] returns: it destroys the screen, shows the cursor and
    writes exactly these messages, in that order, and nothing else. *)
Theorem errors_reach_stdout (events : list Event) (st : Writer * Logger.t)
    (Hrunning : Forall (λ ev, isCleanup ev = false) events)
    (Hinit : initialized (fst (run env events st)) = true) :
  let w := fst (run env events st) in
  errorMessages w = errorMessages (fst st) ++ flat_map errorOf events
  ∧ ∃ w', cleanup w = Some w'
          ∧ issued w w'
            = [ScreenDestroy; CursorShow]
              ++ (StdoutWrite <$> errorMessages (fst st) ++ flat_map errorOf events)
          ∧ errorMessages w' = [].
Proof.
  cbv zeta. destruct (run_frame events st Hrunning) as [He _].
  split; [exact He|].
  rewrite cleanup_spec, Hinit. eexists. split; [done|]. split; [|done].
  apply issued_app.
  change (calls (with_errorMessages [] ?x)) with (calls x).
  by rewrite calls_emitAll, He.
Qed.


Lemma step_initialized st ev :
  initialized (fst st) = true → initialized (fst (step env st ev)) = true.
Proof.
  destruct (isCleanup ev) eqn:Hev.
  - destruct ev; try discriminate. destruct st as [w lg]. cbn [step fst eventTime].
    destruct (runTimeouts_frame t lg w) as (_&_&_&Hi&_).
    rewrite cleanup_spec, Hi. intros Hw. rewrite Hw. cbn [default from_option id].
    change (initialized (with_errorMessages [] ?x)) with (initialized x).
    match goal with |- initialized (emitAll ?cs ?x) = _ =>
      destruct (sameFields_emitAll cs x) as (_&_&_&_&_&->&_) end.
    by rewrite Hi.
  - by destruct (step_frame st ev Hev) as [_ H].
Qed.

(** X18.  The screen is set up once and never again.  The first
    notification initializes the writer, and from then on the writer stays
    initialized through every event, [cleanup] included: [init] does not
    run a second time, not even after [cleanup] has destroyed the screen. *)
Theorem run_stays_initialized (events : list Event) (st : Writer * Logger.t)
    (t : Z) (entry : LogEntry.t) (lg : Logger.t) :
  initialized (fst (run env (GraphChange t entry lg :: events) st)) = true.
Proof.
  unfold run. cbn [fold_left].
  assert (H1 : initialized (fst (step env st (GraphChange t entry lg))) = true).
  { destruct st as [w lg0]. cbn [step fst eventTime].
    destruct (onGraphChange_unfold t entry lg (runTimeouts env t lg0 w))
      as (w0 & -> & Hi0 & _).
    by destruct (handleGraphChange_frame t entry lg false w0) as [-> _]. }
  revert H1. generalize (step env st (GraphChange t entry lg)).
  induction events as [|ev events IH]; intros st1 H1; cbn [fold_left]; [done|].
  by apply IH, step_initialized.
Qed.

(** X19.  The spinner loop never idles.  From a new writer on, whatever
    events arrive, a running spinner loop was started with at least one
    record, and each of its records carries spinner coordinates. *)
Theorem spinner_loop_never_idle
    (events : list Event) (lvl : nat) (width : Z) (lg0 : Logger.t)
    (entries : list TerminalEntry.t)
    (Hloop : intervalID (fst (run env events (newWriter lvl width, lg0)))
             = Some entries) :
  entries ≠ [] ∧ Forall hasSpinner entries.
Proof.
  apply (run_loopInv env events (newWriter lvl width, lg0)); [|exact Hloop].
  intros es Hes. discriminate.
Qed.

End Coverage.

(** *** Instances *)



(** After the burst of the scenario above the canvas lacks the line
    "out2"; a change of level brings it back. *)
Lemma changeLevel_redraws_witness :
  let w := fst afterBurst in
  let output := flatten (fst (fullRender plain (Logger.mk [out1; out2])
                                (with_level 2 w))) in
  logger w = Some (Logger.mk [out1; out2])
  ∧ initialized w = true
  ∧ mainLines w = ["out1"; ""]
  ∧ output = ["out1"; "out2"; ""]
  ∧ forallb keptAsIs output = true
  ∧ issued w (changeLevel plain 2 w)
    = [ MainSetContent ""; MainSetLine 0 "out1"; MainSetLine 1 "out2";
        MainSetLine 2 ""; MainSetScrollPerc 100; ScreenRender ]
  ∧ mainLines (changeLevel plain 2 w) = output.
Proof.
  cbv zeta.
  assert (Hl : logger (fst afterBurst) = Some (Logger.mk [out1; out2]))
    by (vm_compute; reflexivity).
  assert (Hi : initialized (fst afterBurst) = true) by (vm_compute; reflexivity).
  assert (Hk : forallb keptAsIs
                 (flatten (fst (fullRender plain (Logger.mk [out1; out2])
                                  (with_level 2 (fst afterBurst))))) = true)
    by (vm_compute; reflexivity).
  split; [exact Hl|]. split; [exact Hi|]. split; [vm_compute; reflexivity|].
  split; [vm_compute; reflexivity|]. split; [exact Hk|].
  destruct (changeLevel_redraws plain 2 _ _ Hl Hi) as (_ & _ & Hc & Hm).
  split; [rewrite Hc; vm_compute; reflexivity|].
  exact (Hm Hk).
Defined.

Lemma tickSpinner_cycles_witness :
  ("a" ∉ inheritedNames)
  ∧ frames plain ≠ []
  ∧ fst (tickSpinner plain "a" (tickTimes plain 4 "a" ∅)) = "\".
Proof.
  assert (Hk : "a" ∉ inheritedNames)
    by (apply (bool_decide_unpack _); vm_compute; exact I).
  assert (H : frames plain ≠ []) by discriminate.
  split; [exact Hk|]. split; [exact H|].
  destruct (tickSpinner_cycles plain 4 "a" ∅ Hk H) as (Hf & _).
  rewrite Hf. reflexivity.
Defined.


Lemma fullRender_records_witness :
  childRecord ∈ fst (fullRender plain (Logger.mk [twoLines; summary])
                       (init (newWriter 2 80)))
  ∧ TerminalEntry.text childRecord ≠ EmptyString.
Proof.
  assert (H : childRecord ∈ fst (fullRender plain (Logger.mk [twoLines; summary])
                                   (init (newWriter 2 80)))).
  { apply list_elem_of_lookup. exists 1. vm_compute. reflexivity. }
  split; [exact H|].
  destruct (fullRender_records plain _ _ _ H) as [Ht _]. exact Ht.
Defined.

Lemma fullRender_rows_inside_witness :
  let recs := fst (fullRender plain (Logger.mk [twoLines; summary])
                     (init (newWriter 2 80))) in
  recs !! 1 = Some childRecord
  ∧ TerminalEntry.lineNumber childRecord + recordLines childRecord
    < length (flatten recs).
Proof.
  cbv zeta.
  assert (H : fst (fullRender plain (Logger.mk [twoLines; summary])
                     (init (newWriter 2 80))) !! 1 = Some childRecord)
    by (vm_compute; reflexivity).
  split; [exact H|].
  destruct (fullRender_rows_inside plain _ _ 1 _ H) as (_ & Hin & _). exact Hin.
Defined.

(** An entry above the threshold of the writer. *)
Definition verbose : LogEntry.t :=
  LogEntry.mk "v" 3 StatusDone false 0 "details" [].

Lemma notification_without_record_witness :
  let w := init (newWriter 2 80) in
  let lg := Logger.mk [summary; verbose] in
  deferred 1000 verbose false w = false
  ∧ (LogEntry.key verbose
       ∉ LogEntry.key <$> filter (visible (level w)) (getChildEntries lg))
  ∧ calls (handleGraphChange plain 1000 verbose lg false w) = calls w.
Proof.
  cbv zeta.
  assert (Hnow : deferred 1000 verbose false (init (newWriter 2 80)) = false)
    by reflexivity.
  assert (Hkey : LogEntry.key verbose
                 ∉ LogEntry.key
                     <$> filter (visible (level (init (newWriter 2 80))))
                           (getChildEntries (Logger.mk [summary; verbose])))
    by (apply (bool_decide_unpack _); vm_compute; exact I).
  split; [exact Hnow|]. split; [exact Hkey|].
  destruct (notification_without_record plain 1000 verbose _ false _ Hnow Hkey)
    as (Hc & _).
  exact Hc.
Defined.

Lemma second_notification_of_burst_is_silent_witness :
  let st1 := step plain (newWriter 2 80, noLogger)
               (GraphChange 1000 out1 (Logger.mk [out1])) in
  let st2 := step plain st1 (GraphChange 1100 out2 (Logger.mk [out1; out2])) in
  LogEntry.fromStdStream out1 = true
  ∧ LogEntry.fromStdStream out2 = true
  ∧ 1000%Z ≠ 0%Z
  ∧ (1100 - 1000 < 600)%Z
  ∧ calls (fst st2) = calls (fst st1).
Proof.
  cbv zeta.
  assert (H1 : LogEntry.fromStdStream out1 = true) by reflexivity.
  assert (H2 : LogEntry.fromStdStream out2 = true) by reflexivity.
  assert (H3 : 1000%Z ≠ 0%Z) by lia.
  assert (H4 : (1100 - 1000 < 600)%Z) by lia.
  do 4 (split; [done|]).
  destruct (second_notification_of_burst_is_silent plain 1000 1100 out1 out2
              noLogger (Logger.mk [out1]) (Logger.mk [out1; out2])
              (newWriter 2 80) H1 H2 H3 H4) as (Hc & _).
  exact Hc.
Defined.

Lemma errors_reach_stdout_witness :
  let events := [ GraphChange 1000 failure (Logger.mk [failure]);
                  GraphChange 2000 summary (Logger.mk [failure; summary]);
                  Stop 3000 ] in
    let w := fst (run plain events (newWriter 2 80, noLogger)) in
  Forall (λ ev, isCleanup ev = false) events
  ∧ initialized w = true
  ∧ errorMessages w = ["boom" +:+ nl]
  ∧ ∃ w', cleanup w = Some w'
          ∧ issued w w'
            = [ScreenDestroy; CursorShow; StdoutWrite ("boom" +:+ nl)].
Proof.
  cbv zeta.
  assert (H : Forall (λ ev, isCleanup ev = false)
                [ GraphChange 1000 failure (Logger.mk [failure]);
                  GraphChange 2000 summary (Logger.mk [failure; summary]);
                  Stop 3000 ])
    by (repeat constructor).
  assert (Hi : initialized
                 (fst (run plain
                         [ GraphChange 1000 failure (Logger.mk [failure]);
                           GraphChange 2000 summary (Logger.mk [failure; summary]);
                           Stop 3000 ]
                         (newWriter 2 80, noLogger))) = true)
    by (vm_compute; reflexivity).
  split; [exact H|]. split; [exact Hi|].
  destruct (errors_reach_stdout plain _ (newWriter 2 80, noLogger) H Hi)
    as (He & w' & Hc & Hs & _).
  split; [rewrite He; reflexivity|].
  exists w'. split; [exact Hc|]. rewrite Hs. reflexivity.
Defined.


Definition buildingRecord : TerminalEntry.t :=
  {| TerminalEntry.key := "a";
     TerminalEntry.text := "\ building" +:+ nl;
     TerminalEntry.lineNumber := 0;
     TerminalEntry.spinnerCoords := Some (0, 0) |}.

Lemma spinner_loop_never_idle_witness :
  intervalID (fst (run plain [GraphChange 1000 building (Logger.mk [building])]
                     (newWriter 2 80, noLogger)))
  = Some [buildingRecord]
  ∧ Forall hasSpinner [buildingRecord].
Proof.
  assert (H : intervalID
                (fst (run plain [GraphChange 1000 building (Logger.mk [building])]
                        (newWriter 2 80, noLogger)))
              = Some [buildingRecord])
    by (vm_compute; reflexivity).
  split; [exact H|].
  destruct (spinner_loop_never_idle plain _ _ _ _ _ H) as [_ Hall]. exact Hall.
Defined.

End Fullscreen.
